(** * pkg/mountinfo: mount table parser and mount point detector

    A shallow embedding of [pkg/mountinfo/mountinfo.go] together with the
    parts of the Go standard library it calls ([strings.Split],
    [strconv.ParseInt], [bufio.Scanner] with [bufio.ScanLines],
    [errors.Is]) and of the operating system interface it queries
    ([unix.Lstat], [unix.Statfs], [filepath.Dir]).

    Go strings are byte sequences: they are modelled by [string], whose
    characters are the 8-bit [ascii].  Go integers are modelled by [Z]
    with the wrap-around of the machine width written out where the code
    relies on it. *)

From Stdlib Require Import ZArith List String Ascii Bool Lia Arith.
Import ListNotations.

Local Open Scope string_scope.
Local Open Scope list_scope.

(* ------------------------------------------------------------------ *)
(** ** Slicing of byte strings *)

(** [s[:n]] *)
Fixpoint take (n : nat) (s : string) : string :=
  match n, s with
  | S n', String c s' => String c (take n' s')
  | _, _ => EmptyString
  end.

(** [s[n:]] *)
Fixpoint drop (n : nat) (s : string) : string :=
  match n, s with
  | S n', String _ s' => drop n' s'
  | _, _ => s
  end.

(** [strings.HasPrefix s p] *)
Fixpoint HasPrefix (s p : string) {struct p} : bool :=
  match p, s with
  | EmptyString, _ => true
  | String a p', String b s' => Ascii.eqb a b && HasPrefix s' p'
  | String _ _, EmptyString => false
  end.

(** [strings.Join] *)
Fixpoint Join (elems : list string) (sep : string) : string :=
  match elems with
  | [] => EmptyString
  | [e] => e
  | e :: rest => e ++ sep ++ Join rest sep
  end.

(** [strings.Contains s substr] *)
Fixpoint Contains (s substr : string) : bool :=
  HasPrefix s substr ||
  match s with
  | EmptyString => false
  | String _ s' => Contains s' substr
  end.

(* ------------------------------------------------------------------ *)
(** ** package strings *)

Module strings.

(** [strings.Index]: the byte index of the first instance of [substr] in
    [s]; Go's [-1] is [None]. *)
Fixpoint Index (s substr : string) : option nat :=
  if HasPrefix s substr then Some 0
  else match s with
       | EmptyString => None
       | String _ s' => option_map S (Index s' substr)
       end.

(** [bytealg.CountString]: the number of bytes of [s] equal to [c]. *)
Fixpoint CountByte (s : string) (c : ascii) : nat :=
  match s with
  | EmptyString => 0
  | String b s' => (if Ascii.eqb b c then 1 else 0) + CountByte s' c
  end.

(** The generic loop of [strings.Count]:
    [for { i := Index(s, substr); if i == -1 { return n }; n++;
           s = s[i+len(substr):] }].
    Every round removes at least [len(substr)] bytes, so for a non-empty
    [substr] the loop ends within [len(s)] rounds; [fuel] bounds the
    rounds. *)
Fixpoint CountLoop (fuel : nat) (s substr : string) : nat :=
  match fuel with
  | 0 => 0
  | S fuel' =>
      match Index s substr with
      | None => 0
      | Some i => S (CountLoop fuel' (drop (i + length substr) s) substr)
      end
  end.

(** [strings.Count]: the number of non-overlapping instances of [substr]
    in [s].  For the empty [substr] Go counts UTF-8 sequences plus one;
    that case is written for single-byte text and is not reached by this
    package, whose separators are literals of one and three bytes. *)
Definition Count (s substr : string) : nat :=
  match substr with
  | EmptyString => length s + 1
  | String c EmptyString => CountByte s c
  | _ => CountLoop (length s) s substr
  end.

(** [explode]: one piece per character (exact for single-byte text). *)
Fixpoint explode (s : string) : list string :=
  match s with
  | EmptyString => []
  | String c s' => String c EmptyString :: explode s'
  end.

(** The loop of [genSplit]; [k] is [n - i], the rounds left:
    [for i < n { m := Index(s, sep); if m < 0 { break };
                 a[i] = s[:m]; s = s[m+len(sep):]; i++ }
     a[i] = s; return a[:i+1]]. *)
Fixpoint genSplitLoop (k : nat) (s sep : string) : list string :=
  match k with
  | 0 => [s]
  | S k' =>
      match Index s sep with
      | None => [s]
      | Some m => take m s :: genSplitLoop k' (drop (m + length sep) s) sep
      end
  end.

(** [genSplit(s, sep, 0, -1)], which is [strings.Split(s, sep)]. *)
Definition Split (s sep : string) : list string :=
  match sep with
  | EmptyString => explode s
  | _ =>
      let n := Count s sep + 1 in
      let n := if Nat.ltb (length s + 1) n then length s + 1 else n in
      genSplitLoop (n - 1) s sep
  end.

End strings.

(* ------------------------------------------------------------------ *)
(** ** Go error values *)

(** The error values this package creates or passes on.  [fmt.Errorf]
    without a wrapping verb yields a plain message; [strconv] reports a
    [*NumError] around one of its two sentinels; [os.PathError] wraps the
    cause of a failed file operation; the system calls fail with a
    [syscall.Errno]; [bufio.Scanner] has the sentinel [ErrTooLong]. *)
Inductive error : Type :=
| errorString (s : string)
| ErrSyntax
| ErrRange
| ErrTooLong
| Errno (e : Z)
| NumError (Func Num : string) (Err : error)
| PathError (Op Path : string) (Err : error).

(** The strings an error value holds in its fields. *)
Fixpoint errorFields (e : error) : list string :=
  match e with
  | errorString s => [s]
  | ErrSyntax => ["invalid syntax"]
  | ErrRange => ["value out of range"]
  | ErrTooLong => ["bufio.Scanner: token too long"]
  | Errno _ => []
  | NumError f n c => f :: n :: errorFields c
  | PathError op p c => op :: p :: errorFields c
  end.

(** An error carries a text when one of its fields contains it. *)
Definition carries (e : error) (text : string) : bool :=
  existsb (fun f => Contains f text) (errorFields e).

Module errors.

(** [err == target] on interface values, for a target that is a system
    call error number or a package sentinel: values of a comparable
    value type ([syscall.Errno]) are compared by value, sentinels by
    identity, and a freshly allocated [*NumError], [*PathError] or
    message is identical to no such target.  The identity of an
    allocated error with itself is not represented: statements about
    [errors.Is] below take their targets among the error numbers and
    the sentinels (see [valueTarget]). *)
Definition same (err target : error) : bool :=
  match err, target with
  | Errno a, Errno b => Z.eqb a b
  | ErrSyntax, ErrSyntax => true
  | ErrRange, ErrRange => true
  | ErrTooLong, ErrTooLong => true
  | _, _ => false
  end.

(** [errors.Is]: walk the [Unwrap] chain of [err] looking for [target].
    ([syscall.Errno.Is] answers only for the [os] sentinels, which are
    not targets here.) *)
Fixpoint Is (err target : error) : bool :=
  same err target ||
  match err with
  | NumError _ _ c => Is c target
  | PathError _ _ c => Is c target
  | _ => false
  end.

End errors.

Module fmt.

(** [fmt.Errorf(prefix + "%s", arg)] for a string [arg]. *)
Definition Errorf (prefix arg : string) : error := errorString (prefix ++ arg).

End fmt.

(* ------------------------------------------------------------------ *)
(** ** package strconv, at base 10 and bit size 64 *)

Module strconv.

Definition byte (c : ascii) : Z := Z.of_N (N_of_ascii c).

Definition wrap64 (z : Z) : Z := z mod 2 ^ 64.

(** Conversion [int64(u)] of an unsigned 64-bit value, and the wrap of
    a signed result. *)
Definition int64 (z : Z) : Z := (z + 2 ^ 63) mod 2 ^ 64 - 2 ^ 63.

Definition maxUint64 : Z := 2 ^ 64 - 1.

Definition syntaxError (fn str : string) : error := NumError fn str ErrSyntax.
Definition rangeError (fn str : string) : error := NumError fn str ErrRange.

Definition fnParseUint : string := "ParseUint".
Definition fnParseInt : string := "ParseInt".

(** [lower(c)]: [c | ('x' - 'X')]. *)
Definition lower (c : Z) : Z := Z.lor c 32.

(** The digit value the loop of [ParseUint] reads off a byte, before the
    check against the base; [None] is the [default] branch. *)
Definition digit (c : ascii) : option Z :=
  let b := byte c in
  if (byte "0" <=? b)%Z && (b <=? byte "9")%Z then Some (b - byte "0")%Z
  else if (byte "a" <=? lower b)%Z && (lower b <=? byte "z")%Z
       then Some (lower b - byte "a" + 10)%Z
       else None.

(** The loop of [ParseUint(s, 10, 64)] over the bytes left, with the
    accumulator [n]. *)
Fixpoint parseUintLoop (s0 bytes : string) (n : Z) : Z * option error :=
  match bytes with
  | EmptyString => (n, None)
  | String c rest =>
      match digit c with
      | None => (0%Z, Some (syntaxError fnParseUint s0))
      | Some d =>
          let cutoff := (maxUint64 / 10 + 1)%Z in
          let maxVal := wrap64 (wrap64 (Z.shiftl 1 64) - 1) in
          if (10 <=? d)%Z then (0%Z, Some (syntaxError fnParseUint s0))
          else if (cutoff <=? n)%Z then (maxVal, Some (rangeError fnParseUint s0))
          else
            let n := wrap64 (n * 10) in
            let n1 := wrap64 (n + d) in
            if (n1 <? n)%Z || (maxVal <? n1)%Z
            then (maxVal, Some (rangeError fnParseUint s0))
            else parseUintLoop s0 rest n1
      end
  end.

(** [strconv.ParseUint(s, 10, 64)]. *)
Definition ParseUint (s : string) : Z * option error :=
  match s with
  | EmptyString => (0%Z, Some (syntaxError fnParseUint s))
  | _ => parseUintLoop s s 0%Z
  end.

(** [strconv.ParseInt(s, 10, 64)]. *)
Definition ParseInt (s : string) : Z * option error :=
  match s with
  | EmptyString => (0%Z, Some (syntaxError fnParseInt s))
  | String c rest =>
      let s0 := s in
      let '(neg, s) :=
        if Ascii.eqb c "+" then (false, rest)
        else if Ascii.eqb c "-" then (true, rest)
        else (false, s) in
      let '(un, err) := ParseUint s in
      let cutoff := (2 ^ 63)%Z in
      match err with
      | Some (NumError _ _ ErrRange) | None =>
          if negb neg && (cutoff <=? un)%Z
          then ((cutoff - 1)%Z, Some (rangeError fnParseInt s0))
          else if neg && (cutoff <? un)%Z
          then ((- cutoff)%Z, Some (rangeError fnParseInt s0))
          else
            let n := int64 un in
            let n := if neg then int64 (- n) else n in
            (n, None)
      | Some (NumError _ _ cause) => (0%Z, Some (NumError fnParseInt s0 cause))
      | Some e => (0%Z, Some e)
      end
  end.

End strconv.

(* ------------------------------------------------------------------ *)
(** ** The input stream and bufio.Scanner *)

Module io.

(** An [io.Reader] as the scanner sees it: the bytes it delivers, and
    how it ends, [None] for [io.EOF] and [Some e] for a read error.  The
    end is reported by a [Read] that delivers no bytes, as [os.File]
    does.  A reader may also report its end together with its last
    bytes; the scanner then differs in one case only, an unterminated
    last line of exactly [MaxScanTokenSize] bytes, which it delivers as
    a token instead of giving up.  The statements below that turn on the
    length of a line keep clear of that case, so that they hold of both
    kinds of reader. *)
Record Reader : Type := { data : string; readErr : option error }.

End io.

Module bufio.

Definition MaxScanTokenSize : Z := 64 * 1024.

(** [dropCR]: drop one terminal carriage return. *)
Fixpoint dropCR (line : string) : string :=
  match line with
  | EmptyString => EmptyString
  | String c EmptyString => if Ascii.eqb c "013" then EmptyString else line
  | String c rest => String c (dropCR rest)
  end.

(** The tokens [Scan] delivers under the split function [ScanLines],
    and whether scanning stopped with [ErrTooLong].  [pending] holds the
    bytes read since the last token and [size] their number: a line ends
    at a newline, which is dropped, or at the end of the data when bytes
    are pending; the scanner gives up when [MaxScanTokenSize] bytes are
    pending without a newline among them. *)
Fixpoint scanLines (pending : string) (size : Z) (data : string)
  : list string * bool :=
  match data with
  | EmptyString =>
      if (size =? 0)%Z then ([], false)
      else if (MaxScanTokenSize <=? size)%Z then ([], true)
      else ([dropCR pending], false)
  | String c rest =>
      if (MaxScanTokenSize <=? size)%Z then ([], true)
      else if Ascii.eqb c "010" then
        let '(tokens, tooLong) := scanLines EmptyString 0 rest in
        (dropCR pending :: tokens, tooLong)
      else scanLines (pending ++ String c EmptyString) (size + 1) rest
  end.

(** A scanner run to its end: the tokens of the successive successful
    [Scan] calls, read with [Text], and the value of [Err] after [Scan]
    has returned false. *)
Record Scanner : Type := { tokens : list string; Err : option error }.

(** [bufio.NewScanner(r)] with [Split(bufio.ScanLines)].  A read error
    ends the stream like [io.EOF] does, the pending bytes still make a
    last token, and [Err] reports it unless a token was too long. *)
Definition NewScanner (r : io.Reader) : Scanner :=
  let '(toks, tooLong) := scanLines EmptyString 0 (io.data r) in
  {| tokens := toks;
     Err := if tooLong then Some ErrTooLong else io.readErr r |}.

End bufio.

(* ------------------------------------------------------------------ *)
(** ** package unix and the host *)

Module unix.

Definition ENOENT : error := Errno 2.

Definition BPF_FS_MAGIC : Z := 0xcafe4a11.
Definition CGROUP2_SUPER_MAGIC : Z := 0x63677270.

Record Stat_t : Type := {
  Dev : Z; Ino : Z; Nlink : Z; Mode : Z; Uid : Z; Gid : Z;
  Rdev : Z; Size : Z; Blksize : Z; Blocks : Z
}.

Record Statfs_t : Type := {
  Type_ : Z; Bsize : Z; Fblocks : Z; Bfree : Z; Bavail : Z;
  Files : Z; Ffree : Z; Namelen : Z; Frsize : Z; Flags : Z
}.

End unix.

(** What the detector asks of its surroundings: the two status queries,
    each answering with an error or the filled structure, and
    [filepath.Dir], a function of the path text alone. *)
Record Host : Type := {
  Lstat : string -> error + unix.Stat_t;
  Statfs : string -> error + unix.Statfs_t;
  Dir : string -> string
}.

(** The queries a call performs, in order. *)
Inductive syscall : Type :=
| SysLstat (path : string)
| SysStatfs (path : string).

Definition isStatfs (c : syscall) : bool :=
  match c with SysStatfs _ => true | SysLstat _ => false end.

(** Computations that log their system calls. *)
Definition Sys (A : Type) : Type := list syscall -> A * list syscall.

Definition ret {A : Type} (a : A) : Sys A := fun log => (a, log).

Definition bind {A B : Type} (m : Sys A) (k : A -> Sys B) : Sys B :=
  fun log => let '(a, log') := m log in k a log'.

Notation "x <- m ;; k" := (bind m (fun x => k))
  (at level 61, m at next level, right associativity).

Definition lstat (h : Host) (path : string) : Sys (error + unix.Stat_t) :=
  fun log => (Lstat h path, log ++ [SysLstat path]).

Definition statfs (h : Host) (path : string) : Sys (error + unix.Statfs_t) :=
  fun log => (Statfs h path, log ++ [SysStatfs path]).

Definition run {A : Type} (m : Sys A) : A * list syscall := m [].

(* ------------------------------------------------------------------ *)
(** ** package mountinfo *)

Definition FilesystemTypeBPFFS : Z := unix.BPF_FS_MAGIC.
Definition FilesystemTypeCgroup2 : Z := unix.CGROUP2_SUPER_MAGIC.

Record MountInfo : Type := {
  MountID : Z;
  ParentID : Z;
  StDev : string;
  Root : string;
  MountPoint : string;
  MountOptions : string;
  OptionalFields : list string;
  FilesystemType : string;
  MountSource : string;
  SuperOptions : string
}.

(** [a[i]] on a slice of strings; every use below is guarded by a length
    check, so the default is never returned. *)
Definition at_ (a : list string) (i : nat) : string := nth i a EmptyString.

(** [for i := 6; i < len(mountInfoLeft); i++ { optionalFields =
    append(optionalFields, mountInfoLeft[i]) }], with [k] the rounds
    left. *)
Fixpoint optionalLoop (mountInfoLeft : list string) (i k : nat)
    (optionalFields : list string) : list string :=
  match k with
  | 0 => optionalFields
  | S k' =>
      optionalLoop mountInfoLeft (S i) k' (optionalFields ++ [at_ mountInfoLeft i])
  end.

(** The body of the [for scanner.Scan()] loop of [parseMountInfoFile] on
    one line: the error it returns with, or the entry it appends. *)
Definition parseMountInfoRaw (mountInfoRaw : string) : error + MountInfo :=
  let mountInfoSeparated := strings.Split mountInfoRaw " - " in
  if negb (List.length mountInfoSeparated =? 2)%nat then
    inl (fmt.Errorf
           "invalid mountinfo entry which has more that one '-' separator: "
           mountInfoRaw)
  else
    let mountInfoLeft := strings.Split (at_ mountInfoSeparated 0) " " in
    let mountInfoRight := strings.Split (at_ mountInfoSeparated 1) " " in
    if (List.length mountInfoLeft <? 6)%nat then
      inl (fmt.Errorf "invalid mountinfo entry: " mountInfoRaw)
    else if negb (List.length mountInfoRight =? 3)%nat then
      inl (fmt.Errorf "invalid mountinfo entry: " mountInfoRaw)
    else
      match strconv.ParseInt (at_ mountInfoLeft 0) with
      | (_, Some err) => inl err
      | (mountID, None) =>
          match strconv.ParseInt (at_ mountInfoLeft 1) with
          | (_, Some err) => inl err
          | (parentID, None) =>
              let optionalFields :=
                optionalLoop mountInfoLeft 6 (List.length mountInfoLeft - 6) [] in
              inr {| MountID := mountID;
                     ParentID := parentID;
                     StDev := at_ mountInfoLeft 2;
                     Root := at_ mountInfoLeft 3;
                     MountPoint := at_ mountInfoLeft 4;
                     MountOptions := at_ mountInfoLeft 5;
                     OptionalFields := optionalFields;
                     FilesystemType := at_ mountInfoRight 0;
                     MountSource := at_ mountInfoRight 1;
                     SuperOptions := at_ mountInfoRight 2 |}
          end
      end.

(** The [for scanner.Scan()] loop over the tokens still to come, with
    the entries appended so far; an error of the body returns at once
    with a nil slice. *)
Fixpoint scanLoop (lines : list string) (result : list MountInfo)
  : list MountInfo * option error :=
  match lines with
  | [] => (result, None)
  | mountInfoRaw :: rest =>
      match parseMountInfoRaw mountInfoRaw with
      | inl err => ([], Some err)
      | inr entry => scanLoop rest (result ++ [entry])
      end
  end.

(** [parseMountInfoFile]: the entries parsed from the reader, and the
    error. *)
Definition parseMountInfoFile (r : io.Reader) : list MountInfo * option error :=
  let scanner := bufio.NewScanner r in
  match scanLoop (bufio.tokens scanner) [] with
  | (_, Some err) => ([], Some err)
  | (result, None) =>
      match bufio.Err scanner with
      | Some err => ([], Some err)
      | None => (result, None)
      end
  end.

(** [IsMountFS]: whether [path] is a mount point, whether its filesystem
    type is [mntType], and the error. *)
Definition IsMountFS (h : Host) (mntType : Z) (path : string)
  : Sys (bool * bool * option error) :=
  r <- lstat h path ;;
  match r with
  | inl err =>
      if errors.Is err unix.ENOENT then ret (false, false, None)
      else ret (false, false, Some (PathError "lstat" path err))
  | inr st =>
      let parent := Dir h path in
      r <- lstat h parent ;;
      match r with
      | inl err => ret (false, false, Some (PathError "lstat" parent err))
      | inr pst =>
          if (unix.Dev st =? unix.Dev pst)%Z then ret (false, false, None)
          else
            r <- statfs h path ;;
            match r with
            | inl err => ret (true, false, Some (PathError "statfs" path err))
            | inr fst => ret (true, (unix.Type_ fst =? mntType)%Z, None)
            end
      end
  end.

(* ------------------------------------------------------------------ *)
(** ** Notions the properties are stated with *)

(** The number of positions of [s] at which [substr] occurs; two
    occurrences may overlap. *)
Fixpoint occurrences (s substr : string) : nat :=
  (if HasPrefix s substr then 1 else 0) +
  match s with
  | EmptyString => 0
  | String _ s' => occurrences s' substr
  end.

Definition isDigit (c : ascii) : bool :=
  (48 <=? strconv.byte c)%Z && (strconv.byte c <=? 57)%Z.

Fixpoint allDigits (s : string) : bool :=
  match s with
  | EmptyString => true
  | String c s' => isDigit c && allDigits s'
  end.

(** The number a digit string denotes in base 10, after the digits that
    gave [acc]. *)
Fixpoint decimalValue (acc : Z) (s : string) : Z :=
  match s with
  | EmptyString => acc
  | String c s' => decimalValue (10 * acc + (strconv.byte c - 48)) s'
  end.

(** The sign and the digits of a numeral. *)
Definition signAndDigits (s : string) : bool * string :=
  match s with
  | EmptyString => (false, s)
  | String c rest =>
      if Ascii.eqb c "+" then (false, rest)
      else if Ascii.eqb c "-" then (true, rest)
      else (false, s)
  end.

(** The integer a numeral denotes. *)
Definition numeralValue (s : string) : Z :=
  let '(neg, ds) := signAndDigits s in
  if neg then (- decimalValue 0 ds)%Z else decimalValue 0 ds.

(** A valid base-10 64-bit integer: an optional sign, then one or more
    decimal digits, denoting a number from -2^63 to 2^63 - 1. *)
Definition validInt64 (s : string) : bool :=
  let '(_, ds) := signAndDigits s in
  negb (String.eqb ds EmptyString) && allDigits ds &&
  (- 2 ^ 63 <=? numeralValue s)%Z && (numeralValue s <? 2 ^ 63)%Z.

(** The left and the right part of a line that [" - "] splits in two. *)
Definition leftFields (line : string) : list string :=
  strings.Split (at_ (strings.Split line " - ") 0) " ".

Definition rightFields (line : string) : list string :=
  strings.Split (at_ (strings.Split line " - ") 1) " ".

(** The grammar of a line: split in two by [" - "], six or more fields
    on the left, three on the right, two leading integers. *)
Definition wellFormed (line : string) : bool :=
  (strings.Count line " - " =? 1)%nat &&
  (6 <=? List.length (leftFields line))%nat &&
  (List.length (rightFields line) =? 3)%nat &&
  validInt64 (at_ (leftFields line) 0) &&
  validInt64 (at_ (leftFields line) 1).

(** The entry the grammar reads off a line: the two identifiers, left
    fields 2 to 5, the left fields from index 6 on, right fields 0 to 2. *)
Definition entryOf (line : string) : MountInfo :=
  {| MountID := numeralValue (at_ (leftFields line) 0);
     ParentID := numeralValue (at_ (leftFields line) 1);
     StDev := at_ (leftFields line) 2;
     Root := at_ (leftFields line) 3;
     MountPoint := at_ (leftFields line) 4;
     MountOptions := at_ (leftFields line) 5;
     OptionalFields := skipn 6 (leftFields line);
     FilesystemType := at_ (rightFields line) 0;
     MountSource := at_ (rightFields line) 1;
     SuperOptions := at_ (rightFields line) 2 |}.

(** The result triple of [IsMountFS]. *)
Definition isMountPoint (r : bool * bool * option error) : bool := fst (fst r).
Definition typeMatches (r : bool * bool * option error) : bool := snd (fst r).
Definition errorOf (r : bool * bool * option error) : option error := snd r.

(** A host for the examples: a BPF filesystem mounted on [/sys/fs/bpf],
    a directory [/sys/fs/plain] on the device of its parent, a mount
    [/sys/fs/gone] whose filesystem status cannot be read, and a path
    [/sys/fs/denied] that cannot be examined. *)
Definition exampleStat (dev : Z) : unix.Stat_t :=
  {| unix.Dev := dev; unix.Ino := 1; unix.Nlink := 2; unix.Mode := 16877;
     unix.Uid := 0; unix.Gid := 0; unix.Rdev := 0; unix.Size := 0;
     unix.Blksize := 4096; unix.Blocks := 0 |}.

Definition exampleStatfs (magic : Z) : unix.Statfs_t :=
  {| unix.Type_ := magic; unix.Bsize := 4096; unix.Fblocks := 0;
     unix.Bfree := 0; unix.Bavail := 0; unix.Files := 0; unix.Ffree := 0;
     unix.Namelen := 255; unix.Frsize := 4096; unix.Flags := 0 |}.

Definition exampleHost : Host :=
  {| Lstat := fun p =>
       if String.eqb p "/sys/fs/bpf" then inr (exampleStat 25)
       else if String.eqb p "/sys/fs/gone" then inr (exampleStat 26)
       else if String.eqb p "/sys/fs/plain" then inr (exampleStat 21)
       else if String.eqb p "/sys/fs" then inr (exampleStat 21)
       else if String.eqb p "/sys/fs/denied" then inl (Errno 13)
       else if String.eqb p "/orphan/child" then inr (exampleStat 30)
       else inl unix.ENOENT;
     Statfs := fun p =>
       if String.eqb p "/sys/fs/bpf" then inr (exampleStatfs unix.BPF_FS_MAGIC)
       else if String.eqb p "/sys/fs/gone" then inl (Errno 5)
       else inl unix.ENOENT;
     Dir := fun p =>
       if HasPrefix p "/sys/fs/" then "/sys/fs"
       else if HasPrefix p "/orphan/" then "/orphan"
       else "/" |}.

Definition newline : string := String "010" EmptyString.

Definition exampleLine : string :=
  "17 1 8:1 / / rw,relatime shared:1 - ext4 /dev/sda1 rw,errors=remount-ro".

(** Lines and streams for the examples. *)
Definition overlappingLine : string := "1 2 a b c d - - x y".

Definition nonNumericLine : string := "x 1 a b c d - e f g".

Definition gapLeftLine : string := "1 2 8:1 /  rw - ext4 /dev/sda1 rw".

Definition gapRightLine : string := "1 2 8:1 / /mnt rw - ext4  rw".

Definition devLine : string := "18 17 0:5 / /dev rw,nosuid - devtmpfs udev rw".

Definition goodStream : io.Reader :=
  {| io.data := exampleLine ++ newline ++ devLine ++ newline;
     io.readErr := None |}.

(** Five lines, the third of them without a separator. *)
Definition brokenStream : io.Reader :=
  {| io.data := exampleLine ++ newline ++ devLine ++ newline
                ++ "19 17 0:6 / /run rw tmpfs tmpfs rw" ++ newline
                ++ devLine ++ newline ++ exampleLine ++ newline;
     io.readErr := None |}.

(* ------------------------------------------------------------------ *)
(** ** GetMountInfo and the texts of errors *)

Definition mountInfoFilepath : string := "/proc/self/mountinfo".

(** What [GetMountInfo] asks of the runtime: [os.Open], which answers
    with an error or the opened file as a reader, and the two tables the
    [Error] methods read: the text of a system call error number and
    [strconv.Quote], a function of the text alone. *)
Record Runtime : Type := {
  Open : string -> error + io.Reader;
  Strerror : Z -> string;
  Quote : string -> string
}.

(** The [Error] method of each error value. *)
Fixpoint Error (rt : Runtime) (e : error) : string :=
  match e with
  | errorString s => s
  | ErrSyntax => "invalid syntax"
  | ErrRange => "value out of range"
  | ErrTooLong => "bufio.Scanner: token too long"
  | Errno n => Strerror rt n
  | NumError f num cause =>
      "strconv." ++ f ++ ": " ++ "parsing " ++ Quote rt num ++ ": "
      ++ Error rt cause
  | PathError op path cause => op ++ " " ++ path ++ ": " ++ Error rt cause
  end.

(** [GetMountInfo]: the entries of [/proc/self/mountinfo].  The message
    of a failed open is formatted with the verb for strings, which
    prints the [Error] text of the cause; the deferred [Close] does not
    change the results. *)
Definition GetMountInfo (rt : Runtime) : list MountInfo * option error :=
  match Open rt mountInfoFilepath with
  | inl err =>
      ([], Some (errorString
                   ("failed to open mount information at "
                    ++ mountInfoFilepath ++ ": " ++ Error rt err)))
  | inr fMounts => parseMountInfoFile fMounts
  end.

(* ------------------------------------------------------------------ *)
(** ** Further notions *)

(** The text whose lines are the given ones, each ended by a newline. *)
Fixpoint unlines (lines : list string) : string :=
  match lines with
  | [] => EmptyString
  | line :: rest => line ++ newline ++ unlines rest
  end.

Definition noNewline (s : string) : bool :=
  (strings.CountByte s "010" =? 0)%nat.

Fixpoint endsWithNewline (s : string) : bool :=
  match s with
  | EmptyString => false
  | String c EmptyString => Ascii.eqb c "010"
  | String _ rest => endsWithNewline rest
  end.

(** The targets [errors.Is] compares by value or by the identity of a
    package variable: system call error numbers and the sentinels. *)
Definition valueTarget (target : error) : bool :=
  match target with
  | Errno _ | ErrSyntax | ErrRange | ErrTooLong => true
  | errorString _ | NumError _ _ _ | PathError _ _ _ => false
  end.

(** A line that a token of the scanner can hold. *)
Definition fitsToken (s : string) : bool :=
  (Z.of_nat (String.length s) <? bufio.MaxScanTokenSize)%Z.

Definition noSpace (s : string) : bool :=
  (strings.CountByte s " " =? 0)%nat.

(** The texts an entry holds. *)
Definition textFields (e : MountInfo) : list string :=
  [StDev e; Root e; MountPoint e; MountOptions e] ++ OptionalFields e
  ++ [FilesystemType e; MountSource e; SuperOptions e].

(** [n] copies of a character. *)
Fixpoint replicate (n : nat) (c : ascii) : string :=
  match n with
  | 0 => EmptyString
  | S n' => String c (replicate n' c)
  end.

(** Further examples: a host on which [/] is its own parent and stands
    on a device of its own; a runtime whose mount table cannot be opened,
    and one whose mount table holds the two example lines. *)
Definition rootHost : Host :=
  {| Lstat := fun _ => inr (exampleStat 1);
     Statfs := fun _ => inr (exampleStatfs 61267);
     Dir := fun _ => "/" |}.

Definition exampleStrerror (n : Z) : string :=
  if (n =? 2)%Z then "no such file or directory"
  else if (n =? 13)%Z then "permission denied"
  else "input/output error".

(** A stream with an empty line between its two lines, one whose second
    line ends in a carriage return, and one whose second line is too
    long for a token. *)
Definition gappedStream : io.Reader :=
  {| io.data := exampleLine ++ newline ++ newline ++ devLine ++ newline;
     io.readErr := None |}.

Definition crlfLines : list string :=
  [exampleLine; (devLine ++ String "013" EmptyString)%string].

Definition longLine : string :=
  replicate (Z.to_nat bufio.MaxScanTokenSize) "a".

(** [strconv.Quote] on printable text without quotes or backslashes. *)
Definition exampleQuote (text : string) : string :=
  String "034" (text ++ String "034" EmptyString).

Definition missingRuntime : Runtime :=
  {| Open := fun name => inl (PathError "open" name unix.ENOENT);
     Strerror := exampleStrerror;
     Quote := exampleQuote |}.

Definition exampleRuntime : Runtime :=
  {| Open := fun name =>
       if String.eqb name mountInfoFilepath then inr goodStream
       else inl (PathError "open" name unix.ENOENT);
     Strerror := exampleStrerror;
     Quote := exampleQuote |}.

(* ================================================================== *)
(** * Properties *)

(* ------------------------------------------------------------------ *)
(** ** Slices and indices *)

Lemma length_drop (n : nat) (s : string) :
  String.length (drop n s) = String.length s - n.
Proof.
  revert s; induction n as [|n IH]; intros [|c s]; simpl; auto.
Qed.

Lemma length_take (n : nat) (s : string) :
  String.length (take n s) = Nat.min n (String.length s).
Proof.
  revert s; induction n as [|n IH]; intros [|c s]; simpl; auto.
Qed.

Lemma take_drop (n : nat) (s : string) : (take n s ++ drop n s)%string = s.
Proof.
  revert s; induction n as [|n IH]; intros [|c s]; simpl; auto.
  now rewrite IH.
Qed.

Lemma HasPrefix_length (s p : string) :
  HasPrefix s p = true -> String.length p <= String.length s.
Proof.
  revert s; induction p as [|a p IH]; intros [|b s]; simpl; try lia;
    try discriminate.
  intros H; apply andb_true_iff in H as [_ H]. apply IH in H. lia.
Qed.

Lemma HasPrefix_split (s p : string) :
  HasPrefix s p = true -> s = (p ++ drop (String.length p) s)%string.
Proof.
  revert s; induction p as [|a p IH]; intros [|b s]; simpl; auto;
    try discriminate.
  intros H; apply andb_true_iff in H as [Hab H].
  apply Ascii.eqb_eq in Hab; subst b. f_equal. now apply IH.
Qed.

Lemma Index_bound (s sep : string) (i : nat) :
  strings.Index s sep = Some i -> i + String.length sep <= String.length s.
Proof.
  revert i; induction s as [|c s IH]; intros i; cbn [strings.Index].
  - destruct sep; simpl; [|intros; discriminate].
    intros [= <-]. simpl; lia.
  - destruct (HasPrefix (String c s) sep) eqn:E.
    + intros [= <-]. apply HasPrefix_length in E. simpl in *; lia.
    + destruct (strings.Index s sep) as [j|]; simpl; [|intros; discriminate].
      intros [= <-]. specialize (IH j eq_refl). lia.
Qed.

Lemma Index_found (s sep : string) (i : nat) :
  strings.Index s sep = Some i -> HasPrefix (drop i s) sep = true.
Proof.
  revert i; induction s as [|c s IH]; intros i; cbn [strings.Index].
  - destruct sep; simpl; [|intros; discriminate].
    now intros [= <-].
  - destruct (HasPrefix (String c s) sep) eqn:E.
    + now intros [= <-].
    + destruct (strings.Index s sep) as [j|]; simpl; [|intros; discriminate].
      intros [= <-]. simpl. now apply IH.
Qed.

Lemma Index_empty (sep : string) :
  sep <> EmptyString -> strings.Index EmptyString sep = None.
Proof. destruct sep; [congruence | reflexivity]. Qed.

Lemma drop_drop (n m : nat) (s : string) : drop n (drop m s) = drop (m + n) s.
Proof.
  revert s; induction m as [|m IH]; intros s; simpl; auto.
  destruct s as [|c s]; simpl; auto. now destruct n.
Qed.

Lemma Index_cut (s sep : string) (i : nat) :
  strings.Index s sep = Some i ->
  s = (take i s ++ sep ++ drop (i + String.length sep) s)%string.
Proof.
  intros H. rewrite <- (take_drop i s) at 1. f_equal.
  rewrite <- drop_drop. apply HasPrefix_split. now apply Index_found.
Qed.

(* ------------------------------------------------------------------ *)
(** ** strings.Count and strings.Split *)

Section Separator.

Variable sep : string.
Hypothesis sep_nonempty : sep <> EmptyString.

Lemma sep_length : 1 <= String.length sep.
Proof. destruct sep; [congruence | simpl; lia]. Qed.

(** The fuel given to the loop of [Count] is enough: more does not
    change the count. *)
Lemma CountLoop_fuel (f1 f2 : nat) (s : string) :
  String.length s <= f1 -> String.length s <= f2 ->
  strings.CountLoop f1 s sep = strings.CountLoop f2 s sep.
Proof.
  revert f2 s; induction f1 as [|f1 IH]; intros f2 s H1 H2.
  - destruct s; simpl in H1; [|lia].
    destruct f2; cbn [strings.CountLoop]; auto. now rewrite Index_empty.
  - destruct f2 as [|f2].
    + destruct s; simpl in H2; [|lia]. cbn [strings.CountLoop].
      now rewrite Index_empty.
    + cbn [strings.CountLoop]. destruct (strings.Index s sep) as [i|] eqn:E; auto.
      f_equal. pose proof (Index_bound _ _ _ E). pose proof sep_length.
      apply IH; rewrite length_drop; lia.
Qed.

Lemma CountLoop_le (f : nat) (s : string) :
  strings.CountLoop f s sep <= String.length s.
Proof.
  revert s; induction f as [|f IH]; intros s; simpl; [lia|].
  destruct (strings.Index s sep) as [i|] eqn:E; [|lia].
  pose proof (Index_bound _ _ _ E). pose proof sep_length.
  specialize (IH (drop (i + String.length sep) s)).
  rewrite length_drop in IH. lia.
Qed.

Lemma genSplitLoop_length (f : nat) (s : string) :
  List.length (strings.genSplitLoop (strings.CountLoop f s sep) s sep)
  = strings.CountLoop f s sep + 1.
Proof.
  revert s; induction f as [|f IH]; intros s; simpl; auto.
  destruct (strings.Index s sep) as [i|] eqn:E; simpl; auto.
  rewrite E. simpl. now rewrite IH.
Qed.

Lemma genSplitLoop_nonempty (k : nat) (s : string) :
  strings.genSplitLoop k s sep <> [].
Proof.
  destruct k; simpl; [discriminate|].
  destruct (strings.Index s sep); discriminate.
Qed.

Lemma Join_cons (e : string) (rest : list string) (d : string) :
  rest <> [] -> Join (e :: rest) d = (e ++ d ++ Join rest d)%string.
Proof. destruct rest; [congruence | reflexivity]. Qed.

(** Joining the pieces with the separator gives the string back. *)
Lemma genSplitLoop_Join (k : nat) (s : string) :
  Join (strings.genSplitLoop k s sep) sep = s.
Proof.
  revert s; induction k as [|k IH]; intros s; cbn [strings.genSplitLoop]; auto.
  destruct (strings.Index s sep) as [i|] eqn:E; auto.
  rewrite Join_cons by apply genSplitLoop_nonempty.
  rewrite IH. symmetry. now apply Index_cut.
Qed.

End Separator.

Lemma CountByte_CountLoop (s : string) (c : ascii) :
  strings.CountByte s c
  = strings.CountLoop (String.length s) s (String c EmptyString).
Proof.
  assert (Hne : String c EmptyString <> EmptyString) by discriminate.
  induction s as [|b s IH]; auto.
  cbn [strings.CountByte String.length strings.CountLoop strings.Index HasPrefix].
  rewrite (Ascii.eqb_sym c b).
  replace (HasPrefix s "") with true by (now destruct s).
  destruct (Ascii.eqb b c) eqn:Ebc; simpl andb; cbv iota.
  - simpl. now rewrite IH.
  - rewrite IH. simpl "+".
    destruct (strings.Index s (String c "")) as [j|] eqn:E; simpl option_map; cbv iota.
    + rewrite (CountLoop_fuel _ Hne (String.length s) (S (String.length s)) s)
        by lia.
      cbn [strings.CountLoop]. rewrite E. reflexivity.
    + destruct (String.length s); simpl; auto. now rewrite E.
Qed.

Lemma Count_CountLoop (s sep : string) :
  sep <> EmptyString ->
  strings.Count s sep = strings.CountLoop (String.length s) s sep.
Proof.
  intros Hne. destruct sep as [|c [|d sep]]; [congruence| |reflexivity].
  apply CountByte_CountLoop.
Qed.

Lemma Split_genSplitLoop (s sep : string) :
  sep <> EmptyString ->
  strings.Split s sep = strings.genSplitLoop (strings.Count s sep) s sep.
Proof.
  intros Hne. unfold strings.Split.
  destruct sep as [|c sep']; [congruence|].
  set (sp := String c sep') in *.
  assert (Hle : strings.Count s sp <= String.length s).
  { rewrite Count_CountLoop by auto. now apply CountLoop_le. }
  destruct (Nat.ltb_spec (String.length s + 1) (strings.Count s sp + 1)); [lia|].
  f_equal. lia.
Qed.

(** [Split] returns one piece more than [Count] counts. *)
Lemma Split_length (s sep : string) :
  sep <> EmptyString ->
  List.length (strings.Split s sep) = strings.Count s sep + 1.
Proof.
  intros Hne. rewrite Split_genSplitLoop by auto.
  rewrite Count_CountLoop by auto. now apply genSplitLoop_length.
Qed.

Lemma Split_Join (s sep : string) :
  sep <> EmptyString -> Join (strings.Split s sep) sep = s.
Proof.
  intros Hne. rewrite Split_genSplitLoop by auto.
  now apply genSplitLoop_Join.
Qed.

Lemma Index_None_occurrences (s sep : string) :
  strings.Index s sep = None <-> occurrences s sep = 0.
Proof.
  induction s as [|c s IH]; cbn [strings.Index occurrences].
  - destruct (HasPrefix "" sep); split; intros; auto; discriminate.
  - destruct (HasPrefix (String c s) sep).
    + split; intros; discriminate.
    + destruct (strings.Index s sep); simpl in *.
      * split; [discriminate|]. intros H; apply IH in H; discriminate.
      * split; auto. intros _. now apply IH.
Qed.

Lemma Count_zero (s sep : string) :
  sep <> EmptyString ->
  strings.Count s sep = 0 <-> occurrences s sep = 0.
Proof.
  intros Hne. rewrite Count_CountLoop by auto.
  rewrite <- Index_None_occurrences.
  destruct s as [|c s].
  - simpl String.length. simpl strings.CountLoop.
    rewrite Index_empty by auto. tauto.
  - simpl String.length. cbn [strings.CountLoop].
    destruct (strings.Index (String c s) sep); split; intros; auto;
      discriminate.
Qed.

(** [Count] counts some of the positions at which the separator
    occurs, and all of them when there is at most one. *)
Lemma occurrences_drop_le (n : nat) (s sep : string) :
  occurrences (drop n s) sep <= occurrences s sep.
Proof.
  revert s; induction n as [|n IH]; intros s; [simpl; lia|].
  destruct s as [|c s]; [simpl; lia|].
  change (drop (S n) (String c s)) with (drop n s).
  specialize (IH s). cbn [occurrences]. lia.
Qed.

Lemma occurrences_found (i n : nat) (s sep : string) :
  sep <> EmptyString -> i < n -> HasPrefix (drop i s) sep = true ->
  S (occurrences (drop n s) sep) <= occurrences s sep.
Proof.
  intros Hne. revert n s; induction i as [|i IH]; intros n s Hin Hp.
  - destruct n as [|n]; [lia|]. destruct s as [|c s].
    + destruct sep; [congruence | discriminate].
    + change (drop 0 (String c s)) with (String c s) in Hp.
      change (drop (S n) (String c s)) with (drop n s).
      pose proof (occurrences_drop_le n s sep).
      cbn [occurrences]. rewrite Hp. lia.
  - destruct n as [|n]; [lia|]. destruct s as [|c s].
    + destruct sep; [congruence | discriminate].
    + change (drop (S i) (String c s)) with (drop i s) in Hp.
      change (drop (S n) (String c s)) with (drop n s).
      specialize (IH n s ltac:(lia) Hp). cbn [occurrences]. lia.
Qed.

Lemma CountLoop_le_occurrences (f : nat) (s sep : string) :
  sep <> EmptyString -> strings.CountLoop f s sep <= occurrences s sep.
Proof.
  intros Hne. revert s; induction f as [|f IH]; intros s;
    cbn [strings.CountLoop]; [lia|].
  destruct (strings.Index s sep) as [i|] eqn:E; [|lia].
  pose proof (sep_length sep Hne).
  pose proof (occurrences_found i (i + String.length sep) s sep Hne
                ltac:(lia) (Index_found _ _ _ E)).
  specialize (IH (drop (i + String.length sep) s)). lia.
Qed.

Lemma Count_le_occurrences (s sep : string) :
  sep <> EmptyString -> strings.Count s sep <= occurrences s sep.
Proof.
  intros Hne. rewrite Count_CountLoop by auto.
  now apply CountLoop_le_occurrences.
Qed.

Lemma occurrences_one_Count (s sep : string) :
  sep <> EmptyString -> occurrences s sep = 1 -> strings.Count s sep = 1.
Proof.
  intros Hne H. pose proof (Count_le_occurrences s sep Hne).
  pose proof (Count_zero s sep Hne). lia.
Qed.

(* ------------------------------------------------------------------ *)
(** ** strconv.ParseInt accepts exactly the valid numerals *)

Local Open Scope Z_scope.

Lemma digit_cases (c : ascii) :
  match strconv.digit c with
  | Some d => if isDigit c then d = strconv.byte c - 48 else 10 <= d
  | None => isDigit c = false
  end.
Proof.
  destruct c as [[] [] [] [] [] [] [] []]; cbv; first [reflexivity | easy].
Qed.

Lemma isDigit_range (c : ascii) :
  isDigit c = true -> 0 <= strconv.byte c - 48 <= 9.
Proof. unfold isDigit. lia. Qed.

Lemma decimalValue_ge (s : string) (n : Z) :
  0 <= n -> allDigits s = true -> n <= decimalValue n s.
Proof.
  revert n; induction s as [|c s IH]; intros n Hn H;
    cbn [allDigits decimalValue] in *; [lia|].
  apply andb_true_iff in H as [Hc Hs]. apply isDigit_range in Hc.
  specialize (IH (10 * n + (strconv.byte c - 48)) ltac:(lia) Hs). lia.
Qed.

Lemma parseUintLoop_step (s0 rest : string) (c : ascii) (n : Z) :
  strconv.parseUintLoop s0 (String c rest) n =
  match strconv.digit c with
  | None => (0, Some (NumError "ParseUint" s0 ErrSyntax))
  | Some d =>
      if 10 <=? d then (0, Some (NumError "ParseUint" s0 ErrSyntax))
      else if 1844674407370955162 <=? n
      then (18446744073709551615, Some (NumError "ParseUint" s0 ErrRange))
      else if (((n * 10) mod 2 ^ 64 + d) mod 2 ^ 64 <? (n * 10) mod 2 ^ 64)
              || (18446744073709551615 <? ((n * 10) mod 2 ^ 64 + d) mod 2 ^ 64)
      then (18446744073709551615, Some (NumError "ParseUint" s0 ErrRange))
      else strconv.parseUintLoop s0 rest (((n * 10) mod 2 ^ 64 + d) mod 2 ^ 64)
  end.
Proof. reflexivity. Qed.

(** On digits whose value fits 64 bits the loop returns the value. *)
Lemma parseUintLoop_ok (s0 bytes : string) (n : Z) :
  0 <= n -> allDigits bytes = true -> decimalValue n bytes < 2 ^ 64 ->
  strconv.parseUintLoop s0 bytes n = (decimalValue n bytes, None).
Proof.
  revert n; induction bytes as [|c rest IH]; intros n Hn Hd Hv; [reflexivity|].
  rewrite parseUintLoop_step. cbn [allDigits decimalValue] in *.
  apply andb_true_iff in Hd as [Hc Hr].
  pose proof (digit_cases c) as Hdig. rewrite Hc in Hdig.
  destruct (strconv.digit c) as [d|]; [subst d|discriminate].
  pose proof (isDigit_range c Hc) as Hrange.
  set (d := strconv.byte c - 48) in *.
  assert (Hge : 10 * n + d <= decimalValue (10 * n + d) rest)
    by (apply decimalValue_ge; auto; lia).
  destruct (Z.leb_spec 10 d); [lia|].
  destruct (Z.leb_spec 1844674407370955162 n); [lia|].
  rewrite (Z.mod_small (n * 10)) by lia.
  rewrite (Z.mod_small (n * 10 + d)) by lia.
  destruct (Z.ltb_spec (n * 10 + d) (n * 10)); [lia|].
  destruct (Z.ltb_spec 18446744073709551615 (n * 10 + d)); [lia|].
  cbn [orb]. replace (n * 10 + d) with (10 * n + d) by lia.
  apply IH; auto; lia.
Qed.

Ltac syntax_err := do 2 eexists; split; [reflexivity | left; reflexivity].
Ltac range_err :=
  do 2 eexists; split; [reflexivity | right; first [split; reflexivity | reflexivity]].

(** On anything else the loop returns an error: a syntax error, or a
    range error together with the largest value. *)
Lemma parseUintLoop_err (s0 bytes : string) (n : Z) :
  0 <= n < 2 ^ 64 ->
  allDigits bytes = false \/ 2 ^ 64 <= decimalValue n bytes ->
  exists u cause,
    strconv.parseUintLoop s0 bytes n = (u, Some (NumError "ParseUint" s0 cause))
    /\ (cause = ErrSyntax \/ (cause = ErrRange /\ u = 2 ^ 64 - 1)).
Proof.
  revert n; induction bytes as [|c rest IH]; intros n Hn H.
  - simpl in H. destruct H as [H|H]; [discriminate | lia].
  - rewrite parseUintLoop_step. cbn [allDigits decimalValue] in H.
    pose proof (digit_cases c) as Hdig.
    destruct (strconv.digit c) as [d|]; [|syntax_err].
    destruct (isDigit c) eqn:Hc.
    + subst d. pose proof (isDigit_range c Hc) as Hrange.
      set (d := strconv.byte c - 48) in *.
      destruct (Z.leb_spec 10 d); [lia|].
      destruct (Z.leb_spec 1844674407370955162 n); [range_err|].
      rewrite (Z.mod_small (n * 10)) by lia.
      destruct (Z_lt_le_dec (n * 10 + d) (2 ^ 64)) as [Hfit|Hover].
      * rewrite (Z.mod_small (n * 10 + d)) by lia.
        destruct (Z.ltb_spec (n * 10 + d) (n * 10)); [lia|].
        destruct (Z.ltb_spec 18446744073709551615 (n * 10 + d)); [lia|].
        cbn [orb]. apply IH; [lia|].
        replace (n * 10 + d) with (10 * n + d) by lia.
        destruct H as [H|H]; [left|right]; auto.
      * replace ((n * 10 + d) mod 2 ^ 64) with (n * 10 + d - 2 ^ 64)
          by (apply Z.mod_unique with (q := 1); lia).
        destruct (Z.ltb_spec (n * 10 + d - 2 ^ 64) (n * 10)); [|lia].
        cbn [orb]. range_err.
    + destruct (Z.leb_spec 10 d); [syntax_err | lia].
Qed.

Lemma ParseUint_ok (s : string) :
  s <> EmptyString -> allDigits s = true -> decimalValue 0 s < 2 ^ 64 ->
  strconv.ParseUint s = (decimalValue 0 s, None).
Proof.
  intros Hne Hd Hv. destruct s as [|c s]; [congruence|].
  unfold strconv.ParseUint. apply parseUintLoop_ok; auto; lia.
Qed.

Lemma ParseUint_err (s : string) :
  s = EmptyString \/ allDigits s = false \/ 2 ^ 64 <= decimalValue 0 s ->
  exists u cause,
    strconv.ParseUint s = (u, Some (NumError "ParseUint" s cause))
    /\ (cause = ErrSyntax \/ (cause = ErrRange /\ u = 2 ^ 64 - 1)).
Proof.
  intros H. destruct s as [|c s].
  - syntax_err.
  - unfold strconv.ParseUint. apply parseUintLoop_err; [lia|].
    destruct H as [H|H]; [discriminate | exact H].
Qed.

Lemma ParseInt_unfold (c : ascii) (rest : string) :
  strconv.ParseInt (String c rest) =
  let '(neg, ds) := signAndDigits (String c rest) in
  let '(un, err) := strconv.ParseUint ds in
  match err with
  | Some (NumError _ _ ErrRange) | None =>
      if negb neg && (2 ^ 63 <=? un)
      then (2 ^ 63 - 1, Some (NumError "ParseInt" (String c rest) ErrRange))
      else if neg && (2 ^ 63 <? un)
      then (- 2 ^ 63, Some (NumError "ParseInt" (String c rest) ErrRange))
      else (if neg then strconv.int64 (- strconv.int64 un)
            else strconv.int64 un, None)
  | Some (NumError _ _ cause) =>
      (0, Some (NumError "ParseInt" (String c rest) cause))
  | Some e => (0, Some e)
  end.
Proof.
  unfold strconv.ParseInt, signAndDigits.
  destruct (Ascii.eqb c "+"); [reflexivity|].
  destruct (Ascii.eqb c "-"); reflexivity.
Qed.

Lemma validInt64_digits (s : string) :
  validInt64 s = true ->
  let ds := snd (signAndDigits s) in
  ds <> EmptyString /\ allDigits ds = true /\
  - 2 ^ 63 <= numeralValue s < 2 ^ 63.
Proof.
  unfold validInt64. destruct (signAndDigits s) as [neg ds] eqn:E.
  intros H. repeat (apply andb_true_iff in H as [H ?]).
  simpl. repeat split; try lia.
  - intros ->. discriminate.
  - assumption.
Qed.

(** A valid numeral parses to the integer it denotes. *)
Lemma ParseInt_valid (s : string) :
  validInt64 s = true -> strconv.ParseInt s = (numeralValue s, None).
Proof.
  intros H. pose proof (validInt64_digits s H) as (Hne & Hd & Hlo & Hhi).
  destruct s as [|c rest]; [discriminate|].
  rewrite ParseInt_unfold. unfold numeralValue in *.
  destruct (signAndDigits (String c rest)) as [neg ds]. simpl snd in *.
  pose proof (decimalValue_ge ds 0 (Z.le_refl 0) Hd) as Hpos.
  rewrite ParseUint_ok by (auto; destruct neg; lia).
  set (v := decimalValue 0 ds) in *.
  destruct neg; cbn [negb andb].
  - destruct (Z.ltb_spec (2 ^ 63) v); [lia|]. f_equal.
    unfold strconv.int64.
    destruct (Z.eq_dec v (2 ^ 63)) as [->|Hv]; [reflexivity|].
    rewrite (Z.mod_small (v + 2 ^ 63)) by lia.
    replace (v + 2 ^ 63 - 2 ^ 63) with v by lia.
    destruct (Z.eq_dec v 0) as [->|Hz]; [reflexivity|].
    rewrite (Z.mod_small (- v + 2 ^ 63)) by lia. lia.
  - destruct (Z.leb_spec (2 ^ 63) v); [lia|]. f_equal.
    unfold strconv.int64. rewrite Z.mod_small by lia. lia.
Qed.

(** Anything else is refused with a [*NumError] that names [ParseInt],
    holds the text given, and has one of the two causes. *)
Lemma ParseInt_invalid (s : string) :
  validInt64 s = false ->
  exists v cause,
    strconv.ParseInt s = (v, Some (NumError "ParseInt" s cause))
    /\ (cause = ErrSyntax \/ cause = ErrRange).
Proof.
  intros H. destruct s as [|c rest].
  { syntax_err. }
  rewrite ParseInt_unfold. unfold validInt64, numeralValue in H.
  destruct (signAndDigits (String c rest)) as [neg ds].
  destruct ds as [|d0 ds']; [simpl; syntax_err|].
  cbn [String.eqb negb andb] in H.
  assert (Hne : String d0 ds' <> EmptyString) by discriminate.
  remember (String d0 ds') as ds eqn:Eds. clear Eds.
  destruct (allDigits ds) eqn:Hd.
  - pose proof (decimalValue_ge ds 0 (Z.le_refl 0) Hd) as Hpos.
    destruct (Z_lt_le_dec (decimalValue 0 ds) (2 ^ 64)) as [Hfit|Hover].
    + rewrite ParseUint_ok by auto. set (v := decimalValue 0 ds) in *.
      cbn [negb andb] in H.
      destruct neg; cbn [negb andb].
      * destruct (Z.ltb_spec (2 ^ 63) v); [range_err|].
        destruct (Z.leb_spec (- 2 ^ 63) (- v)); [|lia].
        destruct (Z.ltb_spec (- v) (2 ^ 63)); [discriminate | lia].
      * destruct (Z.leb_spec (2 ^ 63) v); [range_err|].
        destruct (Z.leb_spec (- 2 ^ 63) v); [|lia].
        destruct (Z.ltb_spec v (2 ^ 63)); [discriminate | lia].
    + destruct (ParseUint_err ds) as (u & cause & -> & [->|[-> ->]]); auto.
      * syntax_err.
      * destruct neg; range_err.
  - destruct (ParseUint_err ds) as (u & cause & -> & [->|[-> ->]]); auto.
    + syntax_err.
    + destruct neg; range_err.
Qed.

Lemma ParseInt_ok_iff (s : string) :
  snd (strconv.ParseInt s) = None <-> validInt64 s = true.
Proof.
  split; intros H.
  - destruct (validInt64 s) eqn:E; auto.
    destruct (ParseInt_invalid s E) as (v & cause & Hp & _).
    rewrite Hp in H. discriminate.
  - now rewrite ParseInt_valid.
Qed.

Local Close Scope Z_scope.

(* ------------------------------------------------------------------ *)
(** ** One line of the mount table *)

Lemma skipn_at (l : list string) (i : nat) :
  i < List.length l -> skipn i l = at_ l i :: skipn (S i) l.
Proof.
  revert i; induction l as [|x l IH]; intros i H; simpl in H; [lia|].
  destruct i as [|i]; [reflexivity|].
  change (skipn (S i) (x :: l)) with (skipn i l).
  change (at_ (x :: l) (S i)) with (at_ l i).
  rewrite IH by lia. reflexivity.
Qed.

(** The loop that collects the optional fields returns the fields from
    its start index on. *)
Lemma optionalLoop_skipn (l : list string) (k i : nat) (acc : list string) :
  i + k = List.length l -> optionalLoop l i k acc = acc ++ skipn i l.
Proof.
  revert i acc; induction k as [|k IH]; intros i acc H; simpl.
  - rewrite skipn_all2 by lia. now rewrite app_nil_r.
  - rewrite IH by lia. rewrite (skipn_at l i) by lia.
    now rewrite <- app_assoc.
Qed.

Lemma separator_nonempty : " - " <> EmptyString.
Proof. discriminate. Qed.

Lemma space_nonempty : " " <> EmptyString.
Proof. discriminate. Qed.

Lemma two_parts_iff (line : string) :
  (List.length (strings.Split line " - ") =? 2)%nat
  = (strings.Count line " - " =? 1)%nat.
Proof.
  rewrite Split_length by apply separator_nonempty.
  destruct (Nat.eqb_spec (strings.Count line " - ") 1) as [->|H]; [reflexivity|].
  apply Nat.eqb_neq. lia.
Qed.

(** The body of the loop, check by check. *)
Lemma parseMountInfoRaw_eq (line : string) :
  parseMountInfoRaw line =
  if negb (strings.Count line " - " =? 1)%nat then
    inl (errorString
      ("invalid mountinfo entry which has more that one '-' separator: " ++ line)%string)
  else if (List.length (leftFields line) <? 6)%nat then
    inl (errorString ("invalid mountinfo entry: " ++ line)%string)
  else if negb (List.length (rightFields line) =? 3)%nat then
    inl (errorString ("invalid mountinfo entry: " ++ line)%string)
  else
    match strconv.ParseInt (at_ (leftFields line) 0) with
    | (_, Some err) => inl err
    | (_, None) =>
        match strconv.ParseInt (at_ (leftFields line) 1) with
        | (_, Some err) => inl err
        | (_, None) => inr (entryOf line)
        end
    end.
Proof.
  unfold parseMountInfoRaw. rewrite two_parts_iff.
  destruct (strings.Count line " - " =? 1)%nat; [|reflexivity]. cbn [negb].
  fold (leftFields line). fold (rightFields line).
  destruct (Nat.ltb_spec (List.length (leftFields line)) 6) as [|Hlen];
    [reflexivity|].
  destruct (List.length (rightFields line) =? 3)%nat; [|reflexivity]. cbn [negb].
  destruct (validInt64 (at_ (leftFields line) 0)) eqn:V0.
  - rewrite (ParseInt_valid _ V0).
    destruct (validInt64 (at_ (leftFields line) 1)) eqn:V1.
    + rewrite (ParseInt_valid _ V1). unfold entryOf. do 2 f_equal.
      rewrite optionalLoop_skipn by lia. reflexivity.
    + destruct (ParseInt_invalid _ V1) as (v & cause & -> & _). reflexivity.
  - destruct (ParseInt_invalid _ V0) as (v & cause & -> & _). reflexivity.
Qed.

(** A line that follows the grammar yields its entry. *)
Lemma parse_wellFormed (line : string) :
  wellFormed line = true -> parseMountInfoRaw line = inr (entryOf line).
Proof.
  unfold wellFormed. intros H.
  apply andb_true_iff in H as [H V1]. apply andb_true_iff in H as [H V0].
  apply andb_true_iff in H as [H Hright]. apply andb_true_iff in H as [Hsep Hleft].
  rewrite parseMountInfoRaw_eq. rewrite Hsep. cbn [negb].
  destruct (Nat.ltb_spec (List.length (leftFields line)) 6) as [Hlt|_].
  { apply Nat.leb_le in Hleft. lia. }
  rewrite Hright. cbn [negb].
  rewrite (ParseInt_valid _ V0). now rewrite (ParseInt_valid _ V1).
Qed.

(** A line that does not is refused. *)
Lemma parse_malformed (line : string) :
  wellFormed line = false -> exists err, parseMountInfoRaw line = inl err.
Proof.
  unfold wellFormed. intros H. rewrite parseMountInfoRaw_eq.
  destruct (strings.Count line " - " =? 1)%nat; [|cbn [negb]; eexists; reflexivity]. cbn [negb andb] in *.
  destruct (Nat.ltb_spec (List.length (leftFields line)) 6) as [Hlt|Hge]; [eexists; reflexivity|].
  apply Nat.leb_le in Hge. rewrite Hge in H. cbn [andb] in H.
  destruct (List.length (rightFields line) =? 3)%nat; [|cbn [negb]; eexists; reflexivity]. cbn [negb andb] in *.
  destruct (validInt64 (at_ (leftFields line) 0)) eqn:V0.
  - rewrite (ParseInt_valid _ V0). cbn [andb] in H.
    destruct (ParseInt_invalid _ H) as (v & cause & -> & _). eexists; reflexivity.
  - destruct (ParseInt_invalid _ V0) as (v & cause & -> & _). eexists; reflexivity.
Qed.

Lemma parse_ok_iff (line : string) :
  (exists entry, parseMountInfoRaw line = inr entry) <-> wellFormed line = true.
Proof.
  split.
  - intros [entry H]. destruct (wellFormed line) eqn:E; auto.
    destruct (parse_malformed line E) as [err H']. congruence.
  - intros H. eexists. now apply parse_wellFormed.
Qed.

(* ------------------------------------------------------------------ *)
(** ** The whole stream *)

(** While the lines follow the grammar the loop appends their entries,
    in order. *)
Lemma scanLoop_wellFormed (lines : list string) (result : list MountInfo) :
  Forall (fun line => wellFormed line = true) lines ->
  scanLoop lines result = (result ++ map entryOf lines, None).
Proof.
  revert result; induction lines as [|line lines IH]; intros result H; simpl.
  - now rewrite app_nil_r.
  - inversion H as [|? ? Hline Hrest]; subst.
    rewrite (parse_wellFormed line Hline). rewrite IH by assumption.
    now rewrite <- app_assoc.
Qed.

(** The first line the body refuses ends the loop with its error and no
    entries. *)
Lemma scanLoop_first_error (pre post : list string) (bad : string)
    (err : error) (result : list MountInfo) :
  Forall (fun line => wellFormed line = true) pre ->
  parseMountInfoRaw bad = inl err ->
  scanLoop (pre ++ bad :: post) result = ([], Some err).
Proof.
  revert result; induction pre as [|line pre IH]; intros result H Hbad; simpl.
  - now rewrite Hbad.
  - inversion H as [|? ? Hline Hrest]; subst.
    rewrite (parse_wellFormed line Hline). now apply IH.
Qed.

(** A list with a malformed line has a first one. *)
Lemma first_malformed (lines : list string) :
  Exists (fun line => wellFormed line = false) lines ->
  exists pre bad post,
    lines = pre ++ bad :: post /\
    Forall (fun line => wellFormed line = true) pre /\
    wellFormed bad = false.
Proof.
  induction lines as [|line lines IH]; intros H; [inversion H|].
  destruct (wellFormed line) eqn:E.
  - inversion H as [? ? Hl|? ? Hr]; subst; [congruence|].
    destruct (IH Hr) as (pre & bad & post & -> & Hpre & Hbad).
    exists (line :: pre), bad, post. repeat split; auto.
  - exists [], line, lines. repeat split; auto.
Qed.

Lemma parseMountInfoFile_tokens (r : io.Reader) :
  parseMountInfoFile r =
  match scanLoop (bufio.tokens (bufio.NewScanner r)) [] with
  | (_, Some err) => ([], Some err)
  | (result, None) =>
      match bufio.Err (bufio.NewScanner r) with
      | Some err => ([], Some err)
      | None => (result, None)
      end
  end.
Proof. reflexivity. Qed.

(* ------------------------------------------------------------------ *)
(** ** Texts inside texts *)

Lemma append_assoc (a b c : string) :
  ((a ++ b) ++ c)%string = (a ++ b ++ c)%string.
Proof. induction a as [|x a IH]; simpl; [reflexivity | now rewrite IH]. Qed.

Lemma append_length (a b : string) :
  String.length (a ++ b) = String.length a + String.length b.
Proof. induction a as [|x a IH]; simpl; [reflexivity | now rewrite IH]. Qed.

Lemma HasPrefix_append (t b : string) : HasPrefix (t ++ b) t = true.
Proof.
  induction t as [|x t IH]; simpl; [reflexivity|].
  now rewrite Ascii.eqb_refl.
Qed.

Lemma Contains_inside (a t b : string) : Contains (a ++ t ++ b) t = true.
Proof.
  induction a as [|x a IH].
  - simpl append. destruct (t ++ b)%string eqn:E; cbn [Contains];
      rewrite <- E, HasPrefix_append; reflexivity.
  - simpl append. cbn [Contains]. rewrite IH. apply orb_true_r.
Qed.

Lemma Contains_cut (s t : string) :
  Contains s t = true -> exists a b, s = (a ++ t ++ b)%string.
Proof.
  induction s as [|x s IH]; cbn [Contains]; intros H.
  - rewrite orb_false_r in H. apply HasPrefix_split in H.
    exists EmptyString, (drop (String.length t) ""). exact H.
  - apply orb_true_iff in H as [H|H].
    + apply HasPrefix_split in H.
      exists EmptyString, (drop (String.length t) (String x s)). exact H.
    + destruct (IH H) as (a & b & ->). exists (String x a), b. reflexivity.
Qed.

Lemma Contains_length (s t : string) :
  Contains s t = true -> String.length t <= String.length s.
Proof.
  intros H. destruct (Contains_cut s t H) as (a & b & ->).
  rewrite !append_length. lia.
Qed.

Lemma Contains_trans (s t u : string) :
  Contains s t = true -> Contains t u = true -> Contains s u = true.
Proof.
  intros Hst Htu.
  destruct (Contains_cut s t Hst) as (a & b & ->).
  destruct (Contains_cut t u Htu) as (c & d & ->).
  rewrite !append_assoc. rewrite <- (append_assoc a c).
  apply Contains_inside.
Qed.

Lemma Join_In_length (fields : list string) (sep f : string) :
  In f fields -> String.length f <= String.length (Join fields sep).
Proof.
  induction fields as [|x fields IH]; intros H; [inversion H|].
  destruct fields as [|y fields].
  - destruct H as [->|[]]. simpl. lia.
  - rewrite Join_cons by discriminate. rewrite !append_length.
    destruct H as [->|H]; [lia|]. specialize (IH H). lia.
Qed.

(** A line that [" - "] splits in two is its left part, the separator
    and its right part. *)
Lemma two_parts_line (line : string) :
  strings.Count line " - " = 1 ->
  line = (Join (leftFields line) " " ++ " - " ++ Join (rightFields line) " ")%string.
Proof.
  intros H. unfold leftFields, rightFields.
  rewrite !Split_Join by apply space_nonempty.
  pose proof (Split_length line " - " separator_nonempty) as Hlen.
  pose proof (Split_Join line " - " separator_nonempty) as Hjoin.
  rewrite H in Hlen.
  destruct (strings.Split line " - ") as [|l [|r [|x rest]]]; try discriminate.
  symmetry. exact Hjoin.
Qed.

Lemma at_In (l : list string) (i : nat) : i < List.length l -> In (at_ l i) l.
Proof. intros H. now apply nth_In. Qed.

(** The number error for a left field of a line does not carry the
    line. *)
Lemma NumError_lacks_line (line : string) (i : nat) (cause : error) :
  strings.Count line " - " = 1 ->
  i < List.length (leftFields line) ->
  cause = ErrSyntax \/ cause = ErrRange ->
  carries (NumError "ParseInt" (at_ (leftFields line) i) cause) line = false.
Proof.
  intros Hsep Hi Hcause.
  pose proof (two_parts_line line Hsep) as Hline.
  assert (Hdash : Contains line " - " = true).
  { rewrite Hline. apply Contains_inside. }
  assert (Hconst : forall c, Contains c " - " = false -> Contains c line = false).
  { intros c Hc. destruct (Contains c line) eqn:E; auto.
    rewrite (Contains_trans c line " - " E Hdash) in Hc. discriminate. }
  assert (Hfield : Contains (at_ (leftFields line) i) line = false).
  { destruct (Contains (at_ (leftFields line) i) line) eqn:E; auto.
    apply Contains_length in E.
    pose proof (Join_In_length (leftFields line) " " _ (at_In _ _ Hi)) as Hf.
    rewrite Hline in E at 1. rewrite !append_length in E. simpl in E. lia. }
  unfold carries.
  destruct Hcause as [-> | ->]; cbn [errorFields existsb];
    rewrite Hfield; rewrite !Hconst by reflexivity; reflexivity.
Qed.

(* ------------------------------------------------------------------ *)
(** ** The parser: properties of the specification *)

Lemma malformed_token_aborts (r : io.Reader) (line : string) :
  wellFormed line = false ->
  In line (bufio.tokens (bufio.NewScanner r)) ->
  exists err, parseMountInfoFile r = ([], Some err).
Proof.
  intros Hbad Hin. rewrite parseMountInfoFile_tokens.
  destruct (first_malformed (bufio.tokens (bufio.NewScanner r)))
    as (pre & bad & post & -> & Hpre & Hfirst).
  { apply Exists_exists. eauto. }
  destruct (parse_malformed bad Hfirst) as [err Herr].
  rewrite (scanLoop_first_error pre post bad err [] Hpre Herr). eauto.
Qed.

(** C2 (as amended): a line is refused with an error whose message ends
    in the raw line, and no entry is produced for it, whenever [" - "]
    does not cut it exactly once, the cuts being counted from the left
    and without overlap as [strings.Split] makes them, or its left part
    has fewer than 6 space-separated fields, or its right part has a
    number of fields other than 3.  A stream in which such a line is read
    yields no entries at all. *)
Theorem malformed_shape_refused (line : string) :
  strings.Count line " - " <> 1 \/
  List.length (leftFields line) < 6 \/
  List.length (rightFields line) <> 3 ->
  (exists reason,
     parseMountInfoRaw line = inl (errorString (reason ++ line)%string) /\
     (reason = "invalid mountinfo entry which has more that one '-' separator: "
      \/ reason = "invalid mountinfo entry: ")) /\
  (forall r, In line (bufio.tokens (bufio.NewScanner r)) ->
     exists err, parseMountInfoFile r = ([], Some err)).
Proof.
  intros H.
  assert (Hraw : exists reason,
     parseMountInfoRaw line = inl (errorString (reason ++ line)%string) /\
     (reason = "invalid mountinfo entry which has more that one '-' separator: "
      \/ reason = "invalid mountinfo entry: ")).
  { rewrite parseMountInfoRaw_eq.
    destruct (Nat.eqb_spec (strings.Count line " - ") 1) as [Hc|Hc];
      [|cbn [negb]; eexists; split; [reflexivity | now left]].
    cbn [negb].
    destruct (Nat.ltb_spec (List.length (leftFields line)) 6) as [Hl|Hl];
      [eexists; split; [reflexivity | now right]|].
    destruct (Nat.eqb_spec (List.length (rightFields line)) 3) as [Hr|Hr];
      [|cbn [negb]; eexists; split; [reflexivity | now right]].
    exfalso. destruct H as [H|[H|H]]; [congruence | lia | congruence]. }
  split; [exact Hraw|].
  intros r Hin. apply (malformed_token_aborts r line); [|exact Hin].
  destruct (wellFormed line) eqn:E; auto.
  destruct Hraw as (reason & Hraw & _).
  rewrite (parse_wellFormed line E) in Hraw. discriminate.
Qed.

Lemma malformed_shape_refused_witness :
  exists reason,
    parseMountInfoRaw "19 17 0:6 / /run rw tmpfs tmpfs rw"
    = inl (errorString (reason ++ "19 17 0:6 / /run rw tmpfs tmpfs rw")%string) /\
    (reason = "invalid mountinfo entry which has more that one '-' separator: "
     \/ reason = "invalid mountinfo entry: ").
Proof.
  apply (malformed_shape_refused "19 17 0:6 / /run rw tmpfs tmpfs rw").
  left. vm_compute. intros H. discriminate H.
Defined.

(** C2 (as stated) fails: in this line [" - "] occurs at two positions,
    which overlap, yet [strings.Split] cuts it once and the line is
    accepted. *)
Lemma overlapping_separator_accepted :
  occurrences overlappingLine " - " = 2 /\
  strings.Split overlappingLine " - " = ["1 2 a b c d"; "- x y"] /\
  parseMountInfoRaw overlappingLine
  = inr {| MountID := 1; ParentID := 2; StDev := "a"; Root := "b";
           MountPoint := "c"; MountOptions := "d"; OptionalFields := [];
           FilesystemType := "-"; MountSource := "x"; SuperOptions := "y" |}.
Proof. repeat split; vm_compute; reflexivity. Qed.

(** C4: for a line that follows the grammar, with 6 + K fields on the
    left and 3 on the right, the entry has left fields 2 to 5 as
    deviceID, root, mountPoint and mountOptions, right fields 0 to 2 as
    filesystemType, mountSource and superOptions, and its optional
    fields are the K left fields from index 6 on, in their order. *)
Theorem fields_positional (line : string) (K : nat) :
  wellFormed line = true ->
  List.length (leftFields line) = 6 + K ->
  exists entry,
    parseMountInfoRaw line = inr entry /\
    MountID entry = numeralValue (at_ (leftFields line) 0) /\
    ParentID entry = numeralValue (at_ (leftFields line) 1) /\
    StDev entry = at_ (leftFields line) 2 /\
    Root entry = at_ (leftFields line) 3 /\
    MountPoint entry = at_ (leftFields line) 4 /\
    MountOptions entry = at_ (leftFields line) 5 /\
    FilesystemType entry = at_ (rightFields line) 0 /\
    MountSource entry = at_ (rightFields line) 1 /\
    SuperOptions entry = at_ (rightFields line) 2 /\
    List.length (rightFields line) = 3 /\
    OptionalFields entry = skipn 6 (leftFields line) /\
    List.length (OptionalFields entry) = K /\
    (forall i, i < K ->
       at_ (OptionalFields entry) i = at_ (leftFields line) (6 + i)).
Proof.
  intros Hwf Hlen. exists (entryOf line).
  split; [now apply parse_wellFormed|].
  repeat (split; [reflexivity|]).
  split.
  { unfold wellFormed in Hwf.
    apply andb_true_iff in Hwf as [Hwf _]. apply andb_true_iff in Hwf as [Hwf _].
    apply andb_true_iff in Hwf as [_ Hr]. now apply Nat.eqb_eq in Hr. }
  split; [reflexivity|].
  split.
  - cbn [OptionalFields entryOf]. rewrite length_skipn. lia.
  - intros i Hi. cbn [OptionalFields entryOf]. unfold at_.
    now rewrite nth_skipn.
Qed.

Lemma fields_positional_witness :
  exists entry,
    parseMountInfoRaw exampleLine = inr entry /\
    MountID entry = 17%Z /\ ParentID entry = 1%Z /\
    StDev entry = "8:1" /\ Root entry = "/" /\ MountPoint entry = "/" /\
    MountOptions entry = "rw,relatime" /\
    FilesystemType entry = "ext4" /\ MountSource entry = "/dev/sda1" /\
    SuperOptions entry = "rw,errors=remount-ro" /\
    OptionalFields entry = ["shared:1"].
Proof.
  destruct (fields_positional exampleLine 1) as (entry & H).
  - vm_compute. reflexivity.
  - vm_compute. reflexivity.
  - exists entry.
    destruct H as (Hp & H0 & H1 & H2 & H3 & H4 & H5 & H6 & H7 & H8 & _ & H9 & _).
    repeat split; try assumption.
Defined.

(** C5 (as amended): a line whose first or second left field is not a
    valid base-10 64-bit integer is refused.  When the line passes the
    separator and field-count checks, the error is the number error of
    [strconv.ParseInt]: it names that function, holds the text of the
    offending field, the first of the two that is invalid, and has the
    syntax or the range cause; it does not carry the raw line. *)
Theorem bad_identifier_refused (line : string) :
  validInt64 (at_ (leftFields line) 0) = false \/
  validInt64 (at_ (leftFields line) 1) = false ->
  (exists err, parseMountInfoRaw line = inl err) /\
  (strings.Count line " - " = 1 ->
   6 <= List.length (leftFields line) ->
   List.length (rightFields line) = 3 ->
   let offending :=
     if validInt64 (at_ (leftFields line) 0)
     then at_ (leftFields line) 1 else at_ (leftFields line) 0 in
   exists cause,
     (cause = ErrSyntax \/ cause = ErrRange) /\
     validInt64 offending = false /\
     parseMountInfoRaw line = inl (NumError "ParseInt" offending cause) /\
     carries (NumError "ParseInt" offending cause) line = false).
Proof.
  intros H. split.
  - apply parse_malformed. unfold wellFormed.
    destruct H as [-> | ->]; [now rewrite andb_false_r | apply andb_false_r].
  - intros Hsep Hleft Hright. cbv zeta.
    rewrite parseMountInfoRaw_eq. rewrite Hsep, Hright. cbn [Nat.eqb negb].
    destruct (Nat.ltb_spec (List.length (leftFields line)) 6) as [|_]; [lia|].
    destruct (validInt64 (at_ (leftFields line) 0)) eqn:V0.
    + destruct H as [H|V1]; [discriminate|].
      rewrite (ParseInt_valid _ V0).
      destruct (ParseInt_invalid _ V1) as (v & cause & -> & Hcause).
      exists cause. repeat split; auto.
      apply NumError_lacks_line; auto; lia.
    + destruct (ParseInt_invalid _ V0) as (v & cause & -> & Hcause).
      exists cause. repeat split; auto.
      apply NumError_lacks_line; auto; lia.
Qed.

Lemma bad_identifier_refused_witness :
  exists err, parseMountInfoRaw nonNumericLine = inl err.
Proof.
  apply (bad_identifier_refused nonNumericLine).
  left. vm_compute. reflexivity.
Defined.

(** C5 (as stated) fails: the first left field of this line is no
    integer, and the error returned holds the function name, the field
    and the cause, none of which contains the raw line. *)
Lemma numeric_error_lacks_line :
  at_ (leftFields nonNumericLine) 0 = "x" /\
  validInt64 "x" = false /\
  parseMountInfoRaw nonNumericLine = inl (NumError "ParseInt" "x" ErrSyntax) /\
  errorFields (NumError "ParseInt" "x" ErrSyntax)
  = ["ParseInt"; "x"; "invalid syntax"] /\
  carries (NumError "ParseInt" "x" ErrSyntax) nonNumericLine = false.
Proof. repeat split; vm_compute; reflexivity. Qed.



Example brokenStream_result :
  bufio.tokens (bufio.NewScanner brokenStream)
  = [exampleLine; devLine; "19 17 0:6 / /run rw tmpfs tmpfs rw"; devLine;
     exampleLine] /\
  parseMountInfoFile brokenStream
  = ([], Some (errorString
       "invalid mountinfo entry which has more that one '-' separator: 19 17 0:6 / /run rw tmpfs tmpfs rw")).
Proof. split; vm_compute; reflexivity. Qed.

(** C8: parsing the empty stream succeeds with the empty sequence, and
    parsing any stream whose end is reached, no line of it malformed,
    succeeds with the entries of its lines, in order. *)
Theorem clean_stream_succeeds :
  parseMountInfoFile {| io.data := EmptyString; io.readErr := None |} = ([], None) /\
  forall r,
    bufio.Err (bufio.NewScanner r) = None ->
    Forall (fun line => wellFormed line = true)
           (bufio.tokens (bufio.NewScanner r)) ->
    parseMountInfoFile r
    = (map entryOf (bufio.tokens (bufio.NewScanner r)), None).
Proof.
  split; [reflexivity|].
  intros r Herr Hwf. rewrite parseMountInfoFile_tokens.
  rewrite (scanLoop_wellFormed _ [] Hwf). now rewrite Herr.
Qed.

Lemma clean_stream_succeeds_witness :
  parseMountInfoFile goodStream = ([entryOf exampleLine; entryOf devLine], None).
Proof.
  refine (proj2 clean_stream_succeeds goodStream eq_refl _).
  change (Forall (fun line => wellFormed line = true) [exampleLine; devLine]).
  repeat constructor.
Defined.

(* ------------------------------------------------------------------ *)
(** ** The detector: properties of the specification *)

(** [IsMountFS] with its queries written out. *)
Lemma IsMountFS_run (h : Host) (mntType : Z) (path : string) :
  run (IsMountFS h mntType path) =
  match Lstat h path with
  | inl err =>
      (if errors.Is err unix.ENOENT then (false, false, None)
       else (false, false, Some (PathError "lstat" path err)),
       [SysLstat path])
  | inr st =>
      match Lstat h (Dir h path) with
      | inl err =>
          ((false, false, Some (PathError "lstat" (Dir h path) err)),
           [SysLstat path; SysLstat (Dir h path)])
      | inr pst =>
          if (unix.Dev st =? unix.Dev pst)%Z
          then ((false, false, None), [SysLstat path; SysLstat (Dir h path)])
          else
            (match Statfs h path with
             | inl err => (true, false, Some (PathError "statfs" path err))
             | inr fst => (true, (unix.Type_ fst =? mntType)%Z, None)
             end,
             [SysLstat path; SysLstat (Dir h path); SysStatfs path])
      end
  end.
Proof.
  unfold run, IsMountFS, bind, lstat, statfs, ret.
  destruct (Lstat h path) as [err|st]; simpl.
  - now destruct (errors.Is err unix.ENOENT).
  - destruct (Lstat h (Dir h path)) as [err|pst]; simpl; [reflexivity|].
    destruct (unix.Dev st =? unix.Dev pst)%Z; simpl; [reflexivity|].
    now destruct (Statfs h path).
Qed.

(** A system call error is the does-not-exist error when its number is
    that of [ENOENT]. *)
Lemma Is_ENOENT_Errno (e : Z) :
  errors.Is (Errno e) unix.ENOENT = (e =? 2)%Z.
Proof. simpl. apply orb_false_r. Qed.

(** C1: when the device of [path] differs from that of its lexical
    parent, [IsMountFS] reports a mount point; the type matches exactly
    when the filesystem status of [path] has the type [mntType]; and
    when the filesystem status query fails, the failure is returned as an
    error with the mount point still reported. *)
Theorem distinct_device_is_mount_point
    (h : Host) (mntType : Z) (path : string) (st pst : unix.Stat_t) :
  Lstat h path = inr st ->
  Lstat h (Dir h path) = inr pst ->
  unix.Dev st <> unix.Dev pst ->
  isMountPoint (fst (run (IsMountFS h mntType path))) = true /\
  match Statfs h path with
  | inr fst_ =>
      fst (run (IsMountFS h mntType path))
      = (true, (unix.Type_ fst_ =? mntType)%Z, None) /\
      (typeMatches (fst (run (IsMountFS h mntType path))) = true
       <-> unix.Type_ fst_ = mntType)
  | inl err =>
      fst (run (IsMountFS h mntType path))
      = (true, false, Some (PathError "statfs" path err))
  end.
Proof.
  intros Hst Hpst Hdev. rewrite IsMountFS_run, Hst, Hpst.
  destruct (Z.eqb_spec (unix.Dev st) (unix.Dev pst)); [contradiction|].
  destruct (Statfs h path) as [err|fst_]; simpl; repeat split; auto.
  - apply Z.eqb_eq.
  - apply Z.eqb_eq.
Qed.

Lemma distinct_device_is_mount_point_witness :
  fst (run (IsMountFS exampleHost FilesystemTypeBPFFS "/sys/fs/bpf"))
  = (true, true, None) /\
  fst (run (IsMountFS exampleHost FilesystemTypeCgroup2 "/sys/fs/bpf"))
  = (true, false, None) /\
  fst (run (IsMountFS exampleHost FilesystemTypeBPFFS "/sys/fs/gone"))
  = (true, false, Some (PathError "statfs" "/sys/fs/gone" (Errno 5))).
Proof.
  assert (Hbpf : unix.Dev (exampleStat 25) <> unix.Dev (exampleStat 21))
    by (simpl; lia).
  assert (Hgone : unix.Dev (exampleStat 26) <> unix.Dev (exampleStat 21))
    by (simpl; lia).
  split; [|split].
  - exact (proj1 (proj2 (distinct_device_is_mount_point exampleHost
      FilesystemTypeBPFFS "/sys/fs/bpf" _ _ eq_refl eq_refl Hbpf))).
  - exact (proj1 (proj2 (distinct_device_is_mount_point exampleHost
      FilesystemTypeCgroup2 "/sys/fs/bpf" _ _ eq_refl eq_refl Hbpf))).
  - exact (proj2 (distinct_device_is_mount_point exampleHost
      FilesystemTypeBPFFS "/sys/fs/gone" _ _ eq_refl eq_refl Hgone)).
Defined.

(** C3: when the file status query on [path] fails with the
    does-not-exist error, [IsMountFS] returns (false, false) and no
    error; when it fails otherwise, and when the query on the lexical
    parent fails for whatever reason, [IsMountFS] returns an error that
    wraps the cause with the operation name and the path queried. *)
Theorem status_query_failures (h : Host) (mntType : Z) (path : string) :
  (forall err,
     Lstat h path = inl err -> errors.Is err unix.ENOENT = true ->
     fst (run (IsMountFS h mntType path)) = (false, false, None)) /\
  (forall err,
     Lstat h path = inl err -> errors.Is err unix.ENOENT = false ->
     fst (run (IsMountFS h mntType path))
     = (false, false, Some (PathError "lstat" path err))) /\
  (forall st err,
     Lstat h path = inr st -> Lstat h (Dir h path) = inl err ->
     fst (run (IsMountFS h mntType path))
     = (false, false, Some (PathError "lstat" (Dir h path) err))).
Proof.
  repeat split.
  - intros err H HIs. now rewrite IsMountFS_run, H, HIs.
  - intros err H HIs. now rewrite IsMountFS_run, H, HIs.
  - intros st err H Hp. now rewrite IsMountFS_run, H, Hp.
Qed.

Lemma status_query_failures_witness :
  fst (run (IsMountFS exampleHost FilesystemTypeBPFFS "/nowhere"))
  = (false, false, None) /\
  fst (run (IsMountFS exampleHost FilesystemTypeBPFFS "/sys/fs/denied"))
  = (false, false, Some (PathError "lstat" "/sys/fs/denied" (Errno 13))) /\
  fst (run (IsMountFS exampleHost FilesystemTypeBPFFS "/orphan/child"))
  = (false, false, Some (PathError "lstat" "/orphan" unix.ENOENT)).
Proof.
  split; [|split].
  - exact (proj1 (status_query_failures exampleHost FilesystemTypeBPFFS
      "/nowhere") unix.ENOENT eq_refl eq_refl).
  - exact (proj1 (proj2 (status_query_failures exampleHost FilesystemTypeBPFFS
      "/sys/fs/denied")) (Errno 13) eq_refl eq_refl).
  - exact (proj2 (proj2 (status_query_failures exampleHost FilesystemTypeBPFFS
      "/orphan/child")) (exampleStat 30) unix.ENOENT eq_refl eq_refl).
Defined.

(** C7: when the device of [path] equals that of its lexical parent,
    [IsMountFS] returns (false, false) and no error, having performed the
    two file status queries and no filesystem status query. *)
Theorem same_device_not_mount_point
    (h : Host) (mntType : Z) (path : string) (st pst : unix.Stat_t) :
  Lstat h path = inr st ->
  Lstat h (Dir h path) = inr pst ->
  unix.Dev st = unix.Dev pst ->
  run (IsMountFS h mntType path)
  = ((false, false, None), [SysLstat path; SysLstat (Dir h path)]) /\
  existsb isStatfs (snd (run (IsMountFS h mntType path))) = false.
Proof.
  intros Hst Hpst Hdev. rewrite IsMountFS_run, Hst, Hpst.
  apply Z.eqb_eq in Hdev. rewrite Hdev. split; reflexivity.
Qed.

Lemma same_device_not_mount_point_witness :
  run (IsMountFS exampleHost FilesystemTypeBPFFS "/sys/fs/plain")
  = ((false, false, None), [SysLstat "/sys/fs/plain"; SysLstat "/sys/fs"]).
Proof.
  exact (proj1 (same_device_not_mount_point exampleHost FilesystemTypeBPFFS
    "/sys/fs/plain" (exampleStat 21) (exampleStat 21) eq_refl eq_refl eq_refl)).
Defined.

(** C9: [IsMountFS] never reports a type match without a mount point;
    with an error the type match is false; and an error comes with a
    mount point only in the shape (true, false, error) of a failed
    filesystem status query. *)
Theorem result_shapes (h : Host) (mntType : Z) (path : string) :
  let r := fst (run (IsMountFS h mntType path)) in
  (typeMatches r = true -> isMountPoint r = true) /\
  (errorOf r <> None -> typeMatches r = false) /\
  (errorOf r <> None -> isMountPoint r = true ->
   exists err,
     Statfs h path = inl err /\
     r = (true, false, Some (PathError "statfs" path err))).
Proof.
  cbv zeta. rewrite IsMountFS_run.
  destruct (Lstat h path) as [err|st].
  { destruct (errors.Is err unix.ENOENT); simpl; repeat split;
      intros; try discriminate; congruence. }
  destruct (Lstat h (Dir h path)) as [err|pst].
  { simpl; repeat split; intros; try discriminate; congruence. }
  destruct (unix.Dev st =? unix.Dev pst)%Z.
  { simpl; repeat split; intros; try discriminate; congruence. }
  destruct (Statfs h path) as [err|fst_]; simpl; repeat split; intros;
    try discriminate; try congruence.
  exists err. split; reflexivity.
Qed.

Lemma result_shapes_witness :
  exists err,
    Statfs exampleHost "/sys/fs/gone" = inl err /\
    fst (run (IsMountFS exampleHost FilesystemTypeBPFFS "/sys/fs/gone"))
    = (true, false, Some (PathError "statfs" "/sys/fs/gone" err)).
Proof.
  apply (proj2 (proj2 (result_shapes exampleHost FilesystemTypeBPFFS
    "/sys/fs/gone"))).
  - simpl. intros H. discriminate H.
  - reflexivity.
Defined.

(* ------------------------------------------------------------------ *)
(** ** The detector: what the code shows besides *)

(** X1: the system calls of [IsMountFS] are an initial part of the
    sequence file status of [path], file status of its parent,
    filesystem status of [path]; the first is always made, and the
    filesystem status is queried exactly when a mount point is
    reported. *)
Theorem syscalls_in_order (h : Host) (mntType : Z) (path : string) :
  exists n,
    1 <= n <= 3 /\
    snd (run (IsMountFS h mntType path))
    = firstn n [SysLstat path; SysLstat (Dir h path); SysStatfs path] /\
    existsb isStatfs (snd (run (IsMountFS h mntType path)))
    = isMountPoint (fst (run (IsMountFS h mntType path))).
Proof.
  rewrite IsMountFS_run.
  destruct (Lstat h path) as [err|st].
  { exists 1. repeat split; try lia.
    now destruct (errors.Is err unix.ENOENT). }
  destruct (Lstat h (Dir h path)) as [err|pst].
  { exists 2. repeat split; lia. }
  destruct (unix.Dev st =? unix.Dev pst)%Z.
  { exists 2. repeat split; lia. }
  exists 3. repeat split; try lia.
  now destruct (Statfs h path).
Qed.

(** X2: a mount point is reported exactly when both file status queries
    succeed and the two devices differ, whatever the filesystem status
    query answers. *)
Theorem mount_point_iff (h : Host) (mntType : Z) (path : string) :
  isMountPoint (fst (run (IsMountFS h mntType path))) = true <->
  exists st pst,
    Lstat h path = inr st /\ Lstat h (Dir h path) = inr pst /\
    unix.Dev st <> unix.Dev pst.
Proof.
  rewrite IsMountFS_run. split.
  - destruct (Lstat h path) as [err|st].
    { destruct (errors.Is err unix.ENOENT); discriminate. }
    destruct (Lstat h (Dir h path)) as [err|pst]; [discriminate|].
    destruct (Z.eqb_spec (unix.Dev st) (unix.Dev pst)); [discriminate|].
    intros _. exists st, pst. auto.
  - intros (st & pst & -> & -> & Hdev).
    destruct (Z.eqb_spec (unix.Dev st) (unix.Dev pst)); [contradiction|].
    now destruct (Statfs h path).
Qed.

(** X3: a type match is reported exactly when both file status queries
    succeed, the devices differ, and the filesystem status query
    succeeds with the type asked for. *)
Theorem type_match_iff (h : Host) (mntType : Z) (path : string) :
  typeMatches (fst (run (IsMountFS h mntType path))) = true <->
  exists st pst fst_,
    Lstat h path = inr st /\ Lstat h (Dir h path) = inr pst /\
    unix.Dev st <> unix.Dev pst /\
    Statfs h path = inr fst_ /\ unix.Type_ fst_ = mntType.
Proof.
  rewrite IsMountFS_run. split.
  - destruct (Lstat h path) as [err|st].
    { destruct (errors.Is err unix.ENOENT); discriminate. }
    destruct (Lstat h (Dir h path)) as [err|pst]; [discriminate|].
    destruct (Z.eqb_spec (unix.Dev st) (unix.Dev pst)); [discriminate|].
    destruct (Statfs h path) as [err|fst_]; [discriminate|].
    unfold typeMatches; simpl. intros H. apply Z.eqb_eq in H.
    exists st, pst, fst_. auto.
  - intros (st & pst & fst_ & -> & -> & Hdev & Hfs & Hty).
    destruct (Z.eqb_spec (unix.Dev st) (unix.Dev pst)); [contradiction|].
    rewrite Hfs. unfold typeMatches; simpl. now apply Z.eqb_eq.
Qed.

(** X4: the type asked for bears on the type match alone: the mount
    point verdict, the error and the system calls made are the same for
    any two types. *)
Theorem type_only_affects_match (h : Host) (t1 t2 : Z) (path : string) :
  isMountPoint (fst (run (IsMountFS h t1 path)))
  = isMountPoint (fst (run (IsMountFS h t2 path))) /\
  errorOf (fst (run (IsMountFS h t1 path)))
  = errorOf (fst (run (IsMountFS h t2 path))) /\
  snd (run (IsMountFS h t1 path)) = snd (run (IsMountFS h t2 path)).
Proof.
  rewrite !IsMountFS_run.
  destruct (Lstat h path) as [err|st]; [auto|].
  destruct (Lstat h (Dir h path)) as [err|pst]; [auto|].
  destruct (unix.Dev st =? unix.Dev pst)%Z; [auto|].
  destruct (Statfs h path); auto.
Qed.

(** X5: a path that is its own lexical parent, as [/] is, is never
    reported a mount point, and its filesystem status is never queried;
    when its file status can be read the call returns (false, false)
    without an error. *)
Theorem own_parent_not_mount_point (h : Host) (mntType : Z) (path : string) :
  Dir h path = path ->
  isMountPoint (fst (run (IsMountFS h mntType path))) = false /\
  typeMatches (fst (run (IsMountFS h mntType path))) = false /\
  existsb isStatfs (snd (run (IsMountFS h mntType path))) = false /\
  (forall st, Lstat h path = inr st ->
     fst (run (IsMountFS h mntType path)) = (false, false, None)).
Proof.
  intros Hdir. rewrite IsMountFS_run, Hdir.
  destruct (Lstat h path) as [err|st].
  { destruct (errors.Is err unix.ENOENT); repeat split; intros; discriminate. }
  rewrite Z.eqb_refl. repeat split.
Qed.

Lemma own_parent_not_mount_point_witness :
  fst (run (IsMountFS rootHost 61267 "/")) = (false, false, None).
Proof.
  exact (proj2 (proj2 (proj2 (own_parent_not_mount_point rootHost 61267 "/"
    eq_refl))) (exampleStat 1) eq_refl).
Defined.

(** X6: no error is returned exactly when the path does not exist, or
    both file status queries succeed and either the devices are equal or
    the filesystem status query succeeds. *)
Theorem no_error_iff (h : Host) (mntType : Z) (path : string) :
  errorOf (fst (run (IsMountFS h mntType path))) = None <->
  (exists err, Lstat h path = inl err /\ errors.Is err unix.ENOENT = true) \/
  (exists st pst,
     Lstat h path = inr st /\ Lstat h (Dir h path) = inr pst /\
     (unix.Dev st = unix.Dev pst \/ exists fst_, Statfs h path = inr fst_)).
Proof.
  rewrite IsMountFS_run. split.
  - destruct (Lstat h path) as [err|st].
    { destruct (errors.Is err unix.ENOENT) eqn:E; [|discriminate].
      intros _. left. eauto. }
    destruct (Lstat h (Dir h path)) as [err|pst]; [discriminate|].
    destruct (Z.eqb_spec (unix.Dev st) (unix.Dev pst)) as [Heq|Hne].
    { intros _. right. exists st, pst. auto. }
    destruct (Statfs h path) as [err|fst_] eqn:E; [discriminate|].
    intros _. right. exists st, pst. eauto.
  - intros [(err & -> & ->) | (st & pst & -> & -> & H)]; [reflexivity|].
    destruct (Z.eqb_spec (unix.Dev st) (unix.Dev pst)) as [Heq|Hne];
      [reflexivity|].
    destruct H as [H | (fst_ & ->)]; [contradiction | reflexivity].
Qed.

(** X7: an error of [IsMountFS] is always a path error around the cause
    of the system call that failed, with that call's name and path, so
    [errors.Is] on it, for a target that is an error number or a
    sentinel, answers as on the cause; and an error for the file status
    of [path] itself is never the does-not-exist error. *)
Theorem error_wraps_cause (h : Host) (mntType : Z) (path : string) (e : error) :
  errorOf (fst (run (IsMountFS h mntType path))) = Some e ->
  exists op p cause,
    e = PathError op p cause /\
    (forall target, valueTarget target = true ->
       errors.Is e target = errors.Is cause target) /\
    ((op = "lstat" /\ p = path /\ Lstat h path = inl cause /\
      errors.Is cause unix.ENOENT = false) \/
     (op = "lstat" /\ p = Dir h path /\ Lstat h (Dir h path) = inl cause) \/
     (op = "statfs" /\ p = path /\ Statfs h path = inl cause)).
Proof.
  rewrite IsMountFS_run.
  destruct (Lstat h path) as [err|st] eqn:E1.
  { destruct (errors.Is err unix.ENOENT) eqn:E; [discriminate|].
    intros [= <-]. exists "lstat", path, err. repeat split; auto. }
  destruct (Lstat h (Dir h path)) as [err|pst] eqn:E2.
  { intros [= <-]. exists "lstat", (Dir h path), err. repeat split; auto. }
  destruct (unix.Dev st =? unix.Dev pst)%Z; [discriminate|].
  destruct (Statfs h path) as [err|fst_] eqn:E3; [|discriminate].
  intros [= <-]. exists "statfs", path, err. repeat split; auto.
Qed.

Lemma error_wraps_cause_witness :
  exists op p cause,
    PathError "lstat" "/sys/fs/denied" (Errno 13) = PathError op p cause /\
    (forall target, valueTarget target = true ->
       errors.Is (PathError "lstat" "/sys/fs/denied" (Errno 13)) target
       = errors.Is cause target) /\
    ((op = "lstat" /\ p = "/sys/fs/denied" /\
      Lstat exampleHost "/sys/fs/denied" = inl cause /\
      errors.Is cause unix.ENOENT = false) \/
     (op = "lstat" /\ p = Dir exampleHost "/sys/fs/denied" /\
      Lstat exampleHost (Dir exampleHost "/sys/fs/denied") = inl cause) \/
     (op = "statfs" /\ p = "/sys/fs/denied" /\
      Statfs exampleHost "/sys/fs/denied" = inl cause)).
Proof.
  exact (error_wraps_cause exampleHost FilesystemTypeBPFFS "/sys/fs/denied"
    (PathError "lstat" "/sys/fs/denied" (Errno 13)) eq_refl).
Defined.

(* ------------------------------------------------------------------ *)
(** ** The scanner on a text of lines *)

Lemma append_nil_r (s : string) : (s ++ "")%string = s.
Proof. induction s as [|c s IH]; simpl; [reflexivity | now rewrite IH]. Qed.

Lemma scanLines_cons (pending : string) (size : Z) (c : ascii) (rest : string) :
  bufio.scanLines pending size (String c rest) =
  if (bufio.MaxScanTokenSize <=? size)%Z then ([], true)
  else if Ascii.eqb c "010"
       then (bufio.dropCR pending :: fst (bufio.scanLines "" 0 rest),
             snd (bufio.scanLines "" 0 rest))
       else bufio.scanLines (pending ++ String c "") (size + 1) rest.
Proof.
  cbn [bufio.scanLines].
  destruct (bufio.MaxScanTokenSize <=? size)%Z; [reflexivity|].
  destruct (Ascii.eqb c "010"); [|reflexivity].
  now destruct (bufio.scanLines "" 0 rest).
Qed.

Lemma noNewline_cons (c : ascii) (s : string) :
  noNewline (String c s) = true ->
  Ascii.eqb c "010" = false /\ noNewline s = true.
Proof.
  unfold noNewline. cbn [strings.CountByte].
  destruct (Ascii.eqb c "010"); [discriminate | auto].
Qed.

(** A line that fits a token and its newline make one token. *)
Lemma scanLines_line (s pending rest : string) (size : Z) :
  noNewline s = true ->
  (size + Z.of_nat (String.length s) < bufio.MaxScanTokenSize)%Z ->
  bufio.scanLines pending size (s ++ newline ++ rest) =
  (bufio.dropCR (pending ++ s) :: fst (bufio.scanLines "" 0 rest),
   snd (bufio.scanLines "" 0 rest)).
Proof.
  revert pending size; induction s as [|c s IH]; intros pending size Hnl Hfit.
  - cbn [append newline String.length] in *. rewrite scanLines_cons.
    destruct (Z.leb_spec bufio.MaxScanTokenSize size); [lia|].
    rewrite Ascii.eqb_refl, append_nil_r. reflexivity.
  - apply noNewline_cons in Hnl as [Hc Hs].
    cbn [append]. rewrite scanLines_cons, Hc.
    cbn [String.length] in Hfit.
    destruct (Z.leb_spec bufio.MaxScanTokenSize size); [lia|].
    rewrite IH by (auto; lia). rewrite append_assoc. reflexivity.
Qed.

(** Pending bytes that reach the token size without a newline stop the
    scanner. *)
Lemma scanLines_tooLong (s pending rest : string) (size : Z) :
  noNewline s = true ->
  (bufio.MaxScanTokenSize <= size + Z.of_nat (String.length s))%Z ->
  bufio.scanLines pending size (s ++ rest) = ([], true).
Proof.
  revert pending size; induction s as [|c s IH]; intros pending size Hnl Hlong.
  - cbn [append String.length] in *.
    destruct (Z.leb_spec bufio.MaxScanTokenSize size) as [Hle|]; [|lia].
    destruct rest as [|c rest].
    + cbn [bufio.scanLines].
      destruct (Z.eqb_spec size 0) as [->|_];
        [unfold bufio.MaxScanTokenSize in Hle; lia|].
      destruct (Z.leb_spec bufio.MaxScanTokenSize size); [reflexivity | lia].
    + rewrite scanLines_cons.
      destruct (Z.leb_spec bufio.MaxScanTokenSize size); [reflexivity | lia].
  - apply noNewline_cons in Hnl as [Hc Hs].
    cbn [append]. rewrite scanLines_cons, Hc.
    destruct (bufio.MaxScanTokenSize <=? size)%Z; [reflexivity|].
    apply IH; auto. cbn [String.length] in Hlong. lia.
Qed.

(** The lines of a text, each fitting a token, are its first tokens. *)
Lemma scanLines_unlines (lines : list string) (tail : string) :
  Forall (fun l => noNewline l = true /\ fitsToken l = true) lines ->
  bufio.scanLines "" 0 (unlines lines ++ tail) =
  (map bufio.dropCR lines ++ fst (bufio.scanLines "" 0 tail),
   snd (bufio.scanLines "" 0 tail)).
Proof.
  induction lines as [|l lines IH]; intros H.
  - simpl. now destruct (bufio.scanLines "" 0 tail).
  - inversion H as [|? ? [Hnl Hfit] Hrest]; subst.
    cbn [unlines]. rewrite !append_assoc.
    unfold fitsToken in Hfit. apply Z.ltb_lt in Hfit.
    rewrite scanLines_line by (auto; lia).
    rewrite IH by assumption. reflexivity.
Qed.

(** With bytes pending, a newline at the very end changes nothing. *)
Lemma scanLines_final_newline (d pending : string) (size : Z) :
  (0 <= size)%Z -> (0 < size)%Z \/ d <> EmptyString ->
  endsWithNewline d = false ->
  bufio.scanLines pending size (d ++ newline) = bufio.scanLines pending size d.
Proof.
  revert pending size; induction d as [|c d IH]; intros pending size H0 Hp He.
  - destruct Hp as [Hp|Hp]; [|congruence].
    change ("" ++ newline)%string with (String "010" "").
    rewrite scanLines_cons. cbn [bufio.scanLines].
    destruct (Z.eqb_spec size 0); [lia|].
    destruct (bufio.MaxScanTokenSize <=? size)%Z; reflexivity.
  - cbn [append]. rewrite !scanLines_cons.
    destruct (bufio.MaxScanTokenSize <=? size)%Z; [reflexivity|].
    assert (Hd : d <> EmptyString \/ Ascii.eqb c "010" = false).
    { destruct d; [right; exact He | left; discriminate]. }
    assert (He' : endsWithNewline d = false).
    { destruct d; [reflexivity | exact He]. }
    destruct (Ascii.eqb c "010") eqn:Ec.
    + destruct Hd as [Hd|Hd]; [|discriminate].
      rewrite IH by (auto; lia). reflexivity.
    + apply IH; auto; lia.
Qed.

Lemma NewScanner_eq (r : io.Reader) :
  bufio.NewScanner r =
  {| bufio.tokens := fst (bufio.scanLines "" 0 (io.data r));
     bufio.Err := if snd (bufio.scanLines "" 0 (io.data r))
                  then Some ErrTooLong else io.readErr r |}.
Proof.
  unfold bufio.NewScanner. now destruct (bufio.scanLines "" 0 (io.data r)).
Qed.

Lemma all_or_first_malformed (lines : list string) :
  Forall (fun line => wellFormed line = true) lines \/
  Exists (fun line => wellFormed line = false) lines.
Proof.
  induction lines as [|line lines [IH|IH]]; auto.
  destruct (wellFormed line) eqn:E; auto.
Qed.

(* ------------------------------------------------------------------ *)
(** ** The parser: what the code shows besides *)

(** X8: [parseMountInfoFile] succeeds exactly when the scanner ends
    without an error and every line follows the grammar; the entries are
    then those of the lines, one for each line and in their order. *)
Theorem parse_success_iff (r : io.Reader) (entries : list MountInfo) :
  parseMountInfoFile r = (entries, None) <->
  bufio.Err (bufio.NewScanner r) = None /\
  Forall (fun line => wellFormed line = true)
         (bufio.tokens (bufio.NewScanner r)) /\
  entries = map entryOf (bufio.tokens (bufio.NewScanner r)).
Proof.
  rewrite parseMountInfoFile_tokens. split.
  - intros H.
    destruct (all_or_first_malformed (bufio.tokens (bufio.NewScanner r)))
      as [Hwf|Hbad].
    + rewrite (scanLoop_wellFormed _ [] Hwf) in H.
      destruct (bufio.Err (bufio.NewScanner r)); [discriminate|].
      injection H as <-. auto.
    + destruct (first_malformed _ Hbad) as (pre & bad & post & Htok & Hpre & Hb).
      destruct (parse_malformed bad Hb) as [err Herr].
      rewrite Htok, (scanLoop_first_error pre post bad err [] Hpre Herr) in H.
      discriminate.
  - intros (Herr & Hwf & ->).
    rewrite (scanLoop_wellFormed _ [] Hwf), Herr. reflexivity.
Qed.

(** X9: when every line follows the grammar but the scanner ends with an
    error, a read error or a token too long, that error is returned and
    the entries parsed up to there are dropped. *)
Theorem scanner_error_discards_entries (r : io.Reader) (err : error) :
  Forall (fun line => wellFormed line = true)
         (bufio.tokens (bufio.NewScanner r)) ->
  bufio.Err (bufio.NewScanner r) = Some err ->
  parseMountInfoFile r = ([], Some err).
Proof.
  intros Hwf Herr. rewrite parseMountInfoFile_tokens.
  rewrite (scanLoop_wellFormed _ [] Hwf), Herr. reflexivity.
Qed.

Lemma scanner_error_discards_entries_witness :
  parseMountInfoFile
    {| io.data := exampleLine ++ newline ++ devLine;
       io.readErr := Some (Errno 5) |}
  = ([], Some (Errno 5)).
Proof.
  apply scanner_error_discards_entries.
  - change (Forall (fun line => wellFormed line = true) [exampleLine; devLine]).
    repeat constructor.
  - reflexivity.
Defined.

Lemma error_leaves_no_entries (r : io.Reader) (err : error) :
  snd (parseMountInfoFile r) = Some err -> fst (parseMountInfoFile r) = [].
Proof.
  rewrite parseMountInfoFile_tokens.
  destruct (scanLoop (bufio.tokens (bufio.NewScanner r)) []) as [res [e|]];
    [reflexivity|].
  destruct (bufio.Err (bufio.NewScanner r)); [reflexivity | discriminate].
Qed.

(** X10: [parseMountInfoFile] never returns entries together with an
    error. *)
Theorem no_entries_with_error (r : io.Reader) (err : error) :
  snd (parseMountInfoFile r) = Some err -> fst (parseMountInfoFile r) = [].
Proof. apply error_leaves_no_entries. Qed.

Lemma no_entries_with_error_witness :
  fst (parseMountInfoFile brokenStream) = [].
Proof.
  apply (no_entries_with_error brokenStream
    (errorString
       "invalid mountinfo entry which has more that one '-' separator: 19 17 0:6 / /run rw tmpfs tmpfs rw")).
  vm_compute. reflexivity.
Defined.

(** X11: a text of newline-ended lines, each without a newline inside,
    short enough for a token and following the grammar once a final
    carriage return is dropped, parses to the entries of its lines in
    order when the reader ends at end of file, and to the read error and
    no entries when the reader ends with one. *)
Theorem parse_text (lines : list string) (readErr : option error) :
  Forall (fun l => noNewline l = true /\ fitsToken l = true /\
                   wellFormed (bufio.dropCR l) = true) lines ->
  parseMountInfoFile {| io.data := unlines lines; io.readErr := readErr |}
  = match readErr with
    | None => (map entryOf (map bufio.dropCR lines), None)
    | Some err => ([], Some err)
    end.
Proof.
  intros H. rewrite parseMountInfoFile_tokens, NewScanner_eq.
  cbn [bufio.tokens bufio.Err io.data io.readErr].
  rewrite <- (append_nil_r (unlines lines)).
  rewrite scanLines_unlines.
  2:{ eapply Forall_impl; [|exact H]. intros l (? & ? & ?); auto. }
  cbn [bufio.scanLines Z.eqb fst snd]. rewrite app_nil_r.
  rewrite scanLoop_wellFormed.
  2:{ apply Forall_map. eapply Forall_impl; [|exact H].
      intros l (? & ? & ?); auto. }
  destruct readErr; reflexivity.
Qed.

Lemma parse_text_witness :
  parseMountInfoFile {| io.data := unlines crlfLines; io.readErr := None |}
  = ([entryOf exampleLine; entryOf devLine], None).
Proof.
  refine (parse_text crlfLines None _).
  repeat constructor.
Defined.

Lemma endsWithNewline_append (text last : string) :
  last <> EmptyString ->
  endsWithNewline (text ++ last) = endsWithNewline last.
Proof.
  intros Hne. induction text as [|c text IH]; [reflexivity|].
  cbn [append endsWithNewline]. rewrite <- IH.
  destruct (text ++ last)%string eqn:E; [|reflexivity].
  destruct text; [simpl in E; congruence | discriminate E].
Qed.

Lemma noNewline_not_at_end (s : string) :
  noNewline s = true -> endsWithNewline s = false.
Proof.
  induction s as [|c s IH]; intros H; [reflexivity|].
  apply noNewline_cons in H as [Hc Hs].
  destruct s; [exact Hc | now apply IH].
Qed.

(** X12: a newline after the last line is optional: a text of complete
    lines followed by a non-empty last line that fits a token parses the
    same with and without a newline after that line. *)
Theorem final_newline_optional (text last : string) (readErr : option error) :
  text = EmptyString \/ endsWithNewline text = true ->
  last <> EmptyString -> noNewline last = true -> fitsToken last = true ->
  parseMountInfoFile
    {| io.data := text ++ last ++ newline; io.readErr := readErr |}
  = parseMountInfoFile {| io.data := text ++ last; io.readErr := readErr |}.
Proof.
  intros _ Hne Hnl _. rewrite !parseMountInfoFile_tokens, !NewScanner_eq.
  cbn [bufio.tokens bufio.Err io.data io.readErr].
  rewrite <- append_assoc.
  rewrite scanLines_final_newline; [reflexivity | lia | |].
  - right. intros H. destruct text; [simpl in H; congruence | discriminate H].
  - rewrite endsWithNewline_append by exact Hne.
    now apply noNewline_not_at_end.
Qed.

Lemma final_newline_optional_witness :
  parseMountInfoFile
    {| io.data := unlines [exampleLine] ++ devLine ++ newline;
       io.readErr := None |}
  = parseMountInfoFile
    {| io.data := unlines [exampleLine] ++ devLine; io.readErr := None |}.
Proof.
  apply final_newline_optional.
  - right. vm_compute. reflexivity.
  - intros H. discriminate H.
  - vm_compute. reflexivity.
  - vm_compute. reflexivity.
Defined.

(** X13: an empty line, as two newlines in a row or a newline after the
    final one make, is not skipped: a stream with one among its lines
    yields an error and no entries. *)
Theorem empty_line_rejected (r : io.Reader) :
  In EmptyString (bufio.tokens (bufio.NewScanner r)) ->
  exists err, parseMountInfoFile r = ([], Some err).
Proof.
  intros H. apply (malformed_token_aborts r EmptyString); [reflexivity | exact H].
Qed.

Lemma empty_line_rejected_witness :
  exists err, parseMountInfoFile gappedStream = ([], Some err).
Proof.
  apply (empty_line_rejected gappedStream).
  vm_compute. right. left. reflexivity.
Defined.

(** X14: a line too long for a token stops the scanner: after lines
    that parse, 64 KiB or more without a newline, followed by at least
    one more byte, make the call return the token-too-long error and no
    entries, whatever the bytes that follow and however the reader
    ends. *)
Theorem long_line_rejected (lines : list string) (long rest : string)
    (readErr : option error) :
  Forall (fun l => noNewline l = true /\ fitsToken l = true /\
                   wellFormed (bufio.dropCR l) = true) lines ->
  noNewline long = true -> fitsToken long = false ->
  (bufio.MaxScanTokenSize < Z.of_nat (String.length (long ++ rest)))%Z ->
  parseMountInfoFile
    {| io.data := unlines lines ++ long ++ rest; io.readErr := readErr |}
  = ([], Some ErrTooLong).
Proof.
  intros H Hnl Hlong _. rewrite parseMountInfoFile_tokens, NewScanner_eq.
  cbn [bufio.tokens bufio.Err io.data io.readErr].
  rewrite scanLines_unlines.
  2:{ eapply Forall_impl; [|exact H]. intros l (? & ? & ?); auto. }
  unfold fitsToken in Hlong. apply Z.ltb_ge in Hlong.
  rewrite scanLines_tooLong by (auto; lia).
  cbn [fst snd]. rewrite app_nil_r.
  rewrite scanLoop_wellFormed; [reflexivity|].
  apply Forall_map. eapply Forall_impl; [|exact H].
  intros l (? & ? & ?); auto.
Qed.

Lemma long_line_rejected_witness :
  parseMountInfoFile
    {| io.data := unlines [exampleLine] ++ longLine ++ newline ++ devLine;
       io.readErr := None |}
  = ([], Some ErrTooLong).
Proof.
  apply (long_line_rejected [exampleLine] longLine (newline ++ devLine) None).
  - repeat constructor.
  - vm_compute. reflexivity.
  - vm_compute. reflexivity.
  - vm_compute. reflexivity.
Defined.

(* ------------------------------------------------------------------ *)
(** ** Entries and their lines *)

Lemma wellFormed_parts (line : string) :
  wellFormed line = true ->
  strings.Count line " - " = 1 /\
  6 <= List.length (leftFields line) /\
  List.length (rightFields line) = 3 /\
  validInt64 (at_ (leftFields line) 0) = true /\
  validInt64 (at_ (leftFields line) 1) = true.
Proof.
  unfold wellFormed. intros H.
  apply andb_true_iff in H as [H V1]. apply andb_true_iff in H as [H V0].
  apply andb_true_iff in H as [H Hr]. apply andb_true_iff in H as [Hs Hl].
  apply Nat.eqb_eq in Hs, Hr. apply Nat.leb_le in Hl. auto.
Qed.

Lemma parse_accepts (line : string) (entry : MountInfo) :
  parseMountInfoRaw line = inr entry ->
  wellFormed line = true /\ entry = entryOf line.
Proof.
  intros H. assert (Hwf : wellFormed line = true).
  { apply parse_ok_iff. eauto. }
  split; [exact Hwf|]. rewrite (parse_wellFormed line Hwf) in H. congruence.
Qed.

(** X15: the two identifiers of an entry are within the 64-bit signed
    range. *)
Theorem identifiers_in_range (line : string) (entry : MountInfo) :
  parseMountInfoRaw line = inr entry ->
  (- 2 ^ 63 <= MountID entry < 2 ^ 63)%Z /\
  (- 2 ^ 63 <= ParentID entry < 2 ^ 63)%Z.
Proof.
  intros H. apply parse_accepts in H as [Hwf ->].
  apply wellFormed_parts in Hwf as (_ & _ & _ & V0 & V1).
  apply validInt64_digits in V0 as (_ & _ & H0).
  apply validInt64_digits in V1 as (_ & _ & H1).
  cbn [MountID ParentID entryOf]. auto.
Qed.

Lemma identifiers_in_range_witness :
  (- 2 ^ 63 <= 17 < 2 ^ 63)%Z /\ (- 2 ^ 63 <= 1 < 2 ^ 63)%Z.
Proof.
  exact (identifiers_in_range exampleLine (entryOf exampleLine) eq_refl).
Defined.

Lemma Index_byte_none (s : string) (c : ascii) :
  strings.Index s (String c "") = None -> strings.CountByte s c = 0.
Proof.
  induction s as [|b s IH]; [reflexivity|].
  cbn [strings.Index HasPrefix strings.CountByte].
  rewrite (Ascii.eqb_sym c b), andb_true_r.
  destruct (Ascii.eqb b c); [discriminate|].
  destruct (strings.Index s (String c "")); [discriminate|].
  intros _. now rewrite IH.
Qed.

Lemma Index_byte_first (s : string) (c : ascii) (m : nat) :
  strings.Index s (String c "") = Some m ->
  strings.CountByte (take m s) c = 0 /\
  strings.CountByte s c = S (strings.CountByte (drop (m + 1) s) c).
Proof.
  revert m; induction s as [|b s IH]; intros m; [discriminate|].
  cbn [strings.Index HasPrefix strings.CountByte].
  rewrite (Ascii.eqb_sym c b), andb_true_r.
  destruct (Ascii.eqb b c) eqn:E.
  - intros [= <-]. split; reflexivity.
  - destruct (strings.Index s (String c "")) as [j|]; [|discriminate].
    intros [= <-]. destruct (IH j eq_refl) as [Ht Hd].
    cbn [take drop Nat.add strings.CountByte]. rewrite E. split; auto.
Qed.

(** The pieces [Split] cuts at a byte do not contain the byte. *)
Lemma genSplitLoop_byte_pieces (k : nat) (s : string) (c : ascii) :
  strings.CountByte s c <= k ->
  Forall (fun piece => strings.CountByte piece c = 0)
         (strings.genSplitLoop k s (String c "")).
Proof.
  revert s; induction k as [|k IH]; intros s H; cbn [strings.genSplitLoop].
  - repeat constructor. lia.
  - destruct (strings.Index s (String c "")) as [m|] eqn:E.
    + destruct (Index_byte_first s c m E) as [Ht Hd].
      constructor; [exact Ht|]. apply IH. cbn [String.length]. lia.
    + repeat constructor. now apply Index_byte_none.
Qed.

Lemma Split_byte_pieces (s : string) (c : ascii) :
  Forall (fun piece => strings.CountByte piece c = 0)
         (strings.Split s (String c "")).
Proof.
  rewrite Split_genSplitLoop by discriminate.
  apply genSplitLoop_byte_pieces. reflexivity.
Qed.

Lemma six_and_more (l : list string) :
  6 <= List.length l ->
  l = at_ l 0 :: at_ l 1 :: at_ l 2 :: at_ l 3 :: at_ l 4 :: at_ l 5
      :: skipn 6 l.
Proof.
  intros H. destruct l as [|f0 [|f1 [|f2 [|f3 [|f4 [|f5 opt]]]]]];
    simpl in H; try lia. reflexivity.
Qed.

Lemma exactly_three (l : list string) :
  List.length l = 3 -> l = [at_ l 0; at_ l 1; at_ l 2].
Proof.
  intros H. destruct l as [|r0 [|r1 [|r2 [|r3 rest]]]]; try discriminate.
  reflexivity.
Qed.

(** X16: no text of an entry contains a space. *)
Theorem fields_without_space (line : string) (entry : MountInfo) :
  parseMountInfoRaw line = inr entry ->
  Forall (fun field => noSpace field = true) (textFields entry).
Proof.
  intros H. apply parse_accepts in H as [Hwf ->].
  apply wellFormed_parts in Hwf as (_ & Hl & Hr & _ & _).
  pose proof (Split_byte_pieces (at_ (strings.Split line " - ") 0) " ") as Pl.
  pose proof (Split_byte_pieces (at_ (strings.Split line " - ") 1) " ") as Pr.
  fold (leftFields line) in Pl. fold (rightFields line) in Pr.
  rewrite (six_and_more _ Hl) in Pl. rewrite (exactly_three _ Hr) in Pr.
  unfold textFields, noSpace. cbn [entryOf StDev Root MountPoint MountOptions
    OptionalFields FilesystemType MountSource SuperOptions].
  apply Forall_cons_iff in Pl as [_ Pl]. apply Forall_cons_iff in Pl as [_ Pl].
  apply Forall_cons_iff in Pl as [P2 Pl]. apply Forall_cons_iff in Pl as [P3 Pl].
  apply Forall_cons_iff in Pl as [P4 Pl]. apply Forall_cons_iff in Pl as [P5 Pl].
  repeat (apply Forall_cons; [apply Nat.eqb_eq; assumption|]).
  apply Forall_app. split.
  - eapply Forall_impl; [|exact Pl]. intros f Hf. now apply Nat.eqb_eq.
  - eapply Forall_impl; [|exact Pr]. intros f Hf. now apply Nat.eqb_eq.
Qed.

Lemma fields_without_space_witness :
  Forall (fun field => noSpace field = true) (textFields (entryOf exampleLine)).
Proof.
  exact (fields_without_space exampleLine (entryOf exampleLine) eq_refl).
Defined.

(** X17: an accepted line can be written back from its entry and the
    two numerals that gave the identifiers: the texts of the entry,
    joined by single spaces around the separator, are the line. *)
Theorem line_of_entry (line : string) (entry : MountInfo) :
  parseMountInfoRaw line = inr entry ->
  exists mountID parentID,
    validInt64 mountID = true /\ numeralValue mountID = MountID entry /\
    validInt64 parentID = true /\ numeralValue parentID = ParentID entry /\
    line = (Join (mountID :: parentID :: StDev entry :: Root entry
                  :: MountPoint entry :: MountOptions entry
                  :: OptionalFields entry) " "
            ++ " - "
            ++ Join [FilesystemType entry; MountSource entry;
                     SuperOptions entry] " ")%string.
Proof.
  intros H. apply parse_accepts in H as [Hwf ->].
  apply wellFormed_parts in Hwf as (Hs & Hl & Hr & V0 & V1).
  exists (at_ (leftFields line) 0), (at_ (leftFields line) 1).
  repeat split; auto.
  cbn [entryOf StDev Root MountPoint MountOptions OptionalFields
       FilesystemType MountSource SuperOptions].
  rewrite <- (six_and_more _ Hl), <- (exactly_three _ Hr).
  now apply two_parts_line.
Qed.

Lemma line_of_entry_witness :
  exists mountID parentID,
    validInt64 mountID = true /\ numeralValue mountID = 17%Z /\
    validInt64 parentID = true /\ numeralValue parentID = 1%Z /\
    exampleLine = (Join (mountID :: parentID ::
                     ["8:1"; "/"; "/"; "rw,relatime"; "shared:1"]) " "
                   ++ " - "
                   ++ Join ["ext4"; "/dev/sda1"; "rw,errors=remount-ro"] " ")%string.
Proof.
  exact (line_of_entry exampleLine (entryOf exampleLine) eq_refl).
Defined.

(* ------------------------------------------------------------------ *)
(** ** From fields to a line and back *)

Lemma take_append (a b : string) : take (String.length a) (a ++ b) = a.
Proof. induction a as [|x a IH]; simpl; [now destruct b | now rewrite IH]. Qed.

Lemma drop_append (a b : string) : drop (String.length a) (a ++ b) = b.
Proof. induction a as [|x a IH]; simpl; [reflexivity | exact IH]. Qed.

Lemma CountByte_append (a b : string) (c : ascii) :
  strings.CountByte (a ++ b) c = strings.CountByte a c + strings.CountByte b c.
Proof.
  induction a as [|x a IH]; [reflexivity|].
  cbn [append strings.CountByte]. rewrite IH. lia.
Qed.

Lemma Index_byte_append (a b : string) (c : ascii) :
  strings.CountByte a c = 0 ->
  strings.Index (a ++ String c b) (String c "") = Some (String.length a).
Proof.
  induction a as [|x a IH]; intros H.
  - cbn [append strings.Index HasPrefix]. now rewrite Ascii.eqb_refl.
  - cbn [strings.CountByte] in H. cbn [append strings.Index HasPrefix].
    rewrite (Ascii.eqb_sym c x).
    destruct (Ascii.eqb x c); [discriminate|].
    cbn [andb]. rewrite IH by exact H. reflexivity.
Qed.

(** Fields without the separating byte are what [Split] makes of their
    [Join]. *)
Lemma Split_byte_Join (fields : list string) (c : ascii) :
  fields <> [] ->
  Forall (fun f => strings.CountByte f c = 0) fields ->
  strings.Split (Join fields (String c "")) (String c "") = fields.
Proof.
  intros Hne H. rewrite Split_genSplitLoop by discriminate.
  cbn [strings.Count].
  induction fields as [|f [|g rest] IH]; [congruence| |].
  - inversion H as [|? ? Hf _]; subst. cbn [Join]. rewrite Hf. reflexivity.
  - inversion H as [|? ? Hf Hrest]; subst.
    rewrite Join_cons by discriminate.
    set (J := Join (g :: rest) (String c "")) in *.
    cbn [append]. rewrite CountByte_append. cbn [strings.CountByte].
    rewrite Ascii.eqb_refl, Hf. cbn [Nat.add strings.genSplitLoop].
    rewrite Index_byte_append by exact Hf.
    rewrite take_append.
    replace (String.length f + String.length (String c ""))
      with (String.length (f ++ String c "")) by apply append_length.
    replace (f ++ String c J)%string with ((f ++ String c "") ++ J)%string
      by (rewrite append_assoc; reflexivity).
    rewrite drop_append. f_equal. apply IH; [discriminate | exact Hrest].
Qed.

Lemma Index_separator (l r : string) :
  occurrences (l ++ " -") " - " = 0 ->
  strings.Index (l ++ " - " ++ r) " - " = Some (String.length l).
Proof.
  induction l as [|c l IH]; intros H; [reflexivity|].
  cbn [append occurrences] in H.
  change (String c l ++ " - " ++ r)%string with (String c (l ++ " - " ++ r)).
  cbn [strings.Index].
  destruct (HasPrefix (String c (l ++ " -")) " - ") eqn:E; [discriminate|].
  assert (E' : HasPrefix (String c (l ++ " - " ++ r)) " - " = false).
  { destruct l as [|a [|b l]]; cbn in E |- *;
      first [exact E | apply andb_false_r]. }
  rewrite E'. rewrite IH by exact H. reflexivity.
Qed.

(** A left and a right part free of the separator are what [Split]
    makes of them around one. *)
Lemma Split_separator (l r : string) :
  occurrences (l ++ " -") " - " = 0 ->
  occurrences r " - " = 0 ->
  strings.Split (l ++ " - " ++ r) " - " = [l; r] /\
  strings.Count (l ++ " - " ++ r) " - " = 1.
Proof.
  intros Hl Hr. rewrite Split_genSplitLoop by discriminate.
  assert (Hc : strings.Count (l ++ " - " ++ r) " - " = 1).
  { rewrite Count_CountLoop by discriminate.
    rewrite append_length. cbn [append String.length].
    rewrite Nat.add_succ_r. cbn [strings.CountLoop].
    change (String " " (String "-" (String " " r))) with (" - " ++ r)%string.
    rewrite Index_separator by exact Hl. f_equal.
    replace (String.length l + String.length " - ")
      with (String.length (l ++ " - ")) by apply append_length.
    rewrite <- append_assoc, drop_append.
    apply Index_None_occurrences in Hr.
    destruct (String.length l + S (S (String.length r))); cbn [strings.CountLoop];
      [reflexivity | now rewrite Hr]. }
  split; [|exact Hc]. rewrite Hc. cbn [strings.genSplitLoop].
  rewrite Index_separator by exact Hl. rewrite take_append.
  replace (String.length l + String.length " - ")
    with (String.length (l ++ " - ")) by apply append_length.
  rewrite <- append_assoc, drop_append. reflexivity.
Qed.

(** X18: fields printed as a line parse back to themselves.  For six or
    more left fields and three right fields, none of them containing a
    space, the first two valid numerals, when the separator occurs
    neither in the joined left fields followed by a space and a hyphen
    nor in the joined right fields, the line made of the fields joined
    by single spaces around the separator is accepted, with the entry
    that holds the fields. *)
Theorem fields_round_trip (left right : list string) :
  6 <= List.length left -> List.length right = 3 ->
  Forall (fun f => noSpace f = true) left ->
  Forall (fun f => noSpace f = true) right ->
  occurrences (Join left " " ++ " -") " - " = 0 ->
  occurrences (Join right " ") " - " = 0 ->
  validInt64 (at_ left 0) = true -> validInt64 (at_ left 1) = true ->
  parseMountInfoRaw (Join left " " ++ " - " ++ Join right " ")
  = inr {| MountID := numeralValue (at_ left 0);
           ParentID := numeralValue (at_ left 1);
           StDev := at_ left 2; Root := at_ left 3;
           MountPoint := at_ left 4; MountOptions := at_ left 5;
           OptionalFields := skipn 6 left;
           FilesystemType := at_ right 0; MountSource := at_ right 1;
           SuperOptions := at_ right 2 |}.
Proof.
  intros Hl Hr Sl Sr Ol Or V0 V1.
  set (line := (Join left " " ++ " - " ++ Join right " ")%string).
  destruct (Split_separator _ _ Ol Or) as [Hsplit Hcount]. fold line in Hsplit, Hcount.
  assert (Fl : leftFields line = left).
  { unfold leftFields. rewrite Hsplit. cbn [at_ nth].
    apply Split_byte_Join.
    - intros ->. simpl in Hl. lia.
    - eapply Forall_impl; [|exact Sl]. intros f Hf. now apply Nat.eqb_eq. }
  assert (Fr : rightFields line = right).
  { unfold rightFields. rewrite Hsplit. cbn [at_ nth].
    apply Split_byte_Join.
    - intros ->. discriminate.
    - eapply Forall_impl; [|exact Sr]. intros f Hf. now apply Nat.eqb_eq. }
  rewrite parse_wellFormed.
  - unfold entryOf. rewrite Fl, Fr. reflexivity.
  - unfold wellFormed. rewrite Fl, Fr, Hcount, Hr, V0, V1.
    apply Nat.leb_le in Hl. rewrite Hl. reflexivity.
Qed.

Lemma fields_round_trip_witness :
  parseMountInfoRaw exampleLine
  = inr {| MountID := 17; ParentID := 1; StDev := "8:1"; Root := "/";
           MountPoint := "/"; MountOptions := "rw,relatime";
           OptionalFields := ["shared:1"]; FilesystemType := "ext4";
           MountSource := "/dev/sda1";
           SuperOptions := "rw,errors=remount-ro" |}.
Proof.
  refine (fields_round_trip
    ["17"; "1"; "8:1"; "/"; "/"; "rw,relatime"; "shared:1"]
    ["ext4"; "/dev/sda1"; "rw,errors=remount-ro"] _ _ _ _ _ _ _ _).
  - simpl. lia.
  - reflexivity.
  - repeat constructor.
  - repeat constructor.
  - vm_compute. reflexivity.
  - vm_compute. reflexivity.
  - vm_compute. reflexivity.
  - vm_compute. reflexivity.
Defined.

(* ------------------------------------------------------------------ *)
(** ** GetMountInfo *)

(** X19: [GetMountInfo] succeeds exactly when [/proc/self/mountinfo]
    can be opened and parsing the opened file succeeds, with the entries
    of that parse. *)
Theorem GetMountInfo_success_iff (rt : Runtime) (entries : list MountInfo) :
  GetMountInfo rt = (entries, None) <->
  exists fMounts,
    Open rt "/proc/self/mountinfo" = inr fMounts /\
    parseMountInfoFile fMounts = (entries, None).
Proof.
  unfold GetMountInfo, mountInfoFilepath. split.
  - destruct (Open rt "/proc/self/mountinfo") as [err|f]; [discriminate|].
    intros H. exists f. auto.
  - intros (f & -> & H). exact H.
Qed.

(** X20: when the open fails, [GetMountInfo] returns no entries and a
    plain message naming the path and ending in the text of the cause;
    the cause is not wrapped, so [errors.Is] finds no error number and
    no sentinel in the error returned, whatever the cause was.  In both
    the open and the parse failure the entries are empty. *)
Theorem GetMountInfo_failure (rt : Runtime) :
  (forall cause,
     Open rt mountInfoFilepath = inl cause ->
     GetMountInfo rt
     = ([], Some (errorString
          ("failed to open mount information at /proc/self/mountinfo: "
           ++ Error rt cause)%string)) /\
     forall err target,
       valueTarget target = true ->
       snd (GetMountInfo rt) = Some err -> errors.Is err target = false) /\
  (forall err, snd (GetMountInfo rt) = Some err -> fst (GetMountInfo rt) = []).
Proof.
  split.
  - intros cause H. unfold GetMountInfo. rewrite H. split; [reflexivity|].
    intros err target _ [= <-]. reflexivity.
  - intros err. unfold GetMountInfo.
    destruct (Open rt mountInfoFilepath) as [cause|f]; [reflexivity|].
    apply error_leaves_no_entries.
Qed.

Lemma GetMountInfo_failure_witness :
  GetMountInfo missingRuntime
  = ([], Some (errorString
       "failed to open mount information at /proc/self/mountinfo: open /proc/self/mountinfo: no such file or directory")) /\
  errors.Is (PathError "open" "/proc/self/mountinfo" unix.ENOENT) unix.ENOENT = true /\
  errors.Is (errorString
       "failed to open mount information at /proc/self/mountinfo: open /proc/self/mountinfo: no such file or directory")
    unix.ENOENT = false.
Proof.
  destruct (proj1 (GetMountInfo_failure missingRuntime)
    (PathError "open" "/proc/self/mountinfo" unix.ENOENT) eq_refl) as [Hres His].
  split; [exact Hres|]. split; [reflexivity|].
  exact (His _ unix.ENOENT eq_refl (f_equal snd Hres)).
Defined.

Lemma GetMountInfo_success_iff_witness :
  GetMountInfo exampleRuntime = ([entryOf exampleLine; entryOf devLine], None).
Proof.
  apply (proj2 (GetMountInfo_success_iff exampleRuntime
                  [entryOf exampleLine; entryOf devLine])).
  exists goodStream. split; [reflexivity|].
  vm_compute. reflexivity.
Defined.

(* ------------------------------------------------------------------ *)
(** ** Empty fields *)

Lemma spaceless_no_gap (f t : string) :
  strings.CountByte f " " = 0 -> Contains (f ++ t) "  " = Contains t "  ".
Proof.
  induction f as [|c f IH]; intros H; [reflexivity|].
  cbn [strings.CountByte] in H. cbn [append Contains HasPrefix].
  rewrite (Ascii.eqb_sym " " c).
  destruct (Ascii.eqb c " "); [discriminate|].
  cbn [andb orb]. now apply IH.
Qed.

Lemma Contains_empty (pattern : string) :
  pattern <> EmptyString -> Contains "" pattern = false.
Proof. destruct pattern; [congruence | reflexivity]. Qed.

(** Non-empty fields without a space, joined by single spaces, never put
    two spaces in a row. *)
Lemma Join_no_gap (fields : list string) :
  Forall (fun f => strings.CountByte f " " = 0 /\ f <> EmptyString) fields ->
  Contains (Join fields " ") "  " = false.
Proof.
  induction fields as [|f [|g rest] IH]; intros H.
  - reflexivity.
  - inversion H as [|? ? [Hf _] _]; subst. cbn [Join].
    rewrite <- (append_nil_r f). now rewrite spaceless_no_gap.
  - inversion H as [|? ? [Hf _] Hrest]; subst.
    rewrite Join_cons by discriminate.
    rewrite spaceless_no_gap by exact Hf.
    specialize (IH Hrest).
    inversion Hrest as [|? ? [Hg Hgne] _]; subst.
    destruct g as [|x g]; [congruence|].
    assert (Hx : Ascii.eqb x " " = false).
    { cbn [strings.CountByte] in Hg. destruct (Ascii.eqb x " "); [discriminate | reflexivity]. }
    assert (HJ : exists J, Join (String x g :: rest) " " = String x J).
    { destruct rest; [exists g; reflexivity | eexists; reflexivity]. }
    destruct HJ as [J HJ]. rewrite HJ in IH |- *.
    cbn [append Contains HasPrefix] in IH |- *.
    rewrite (Ascii.eqb_sym " " x), Hx in IH |- *.
    cbn [andb orb] in IH |- *. rewrite Ascii.eqb_refl. cbn [andb orb].
    exact IH.
Qed.

(** Where two spaces stand in a row, [Split] on a space returns an empty
    piece. *)
Lemma Split_gap_empty_piece (s : string) :
  Contains s "  " = true -> In EmptyString (strings.Split s " ").
Proof.
  intros H.
  destruct (in_dec string_dec EmptyString (strings.Split s " ")) as [Hin|Hnot];
    [exact Hin|].
  exfalso.
  pose proof (Split_byte_pieces s " ") as Hpieces.
  assert (Hall : Forall (fun f => strings.CountByte f " " = 0 /\ f <> EmptyString)
                        (strings.Split s " ")).
  { apply Forall_forall. intros f Hf. split.
    - exact (proj1 (Forall_forall _ _) Hpieces f Hf).
    - intros ->. contradiction. }
  apply Join_no_gap in Hall.
  rewrite (Split_Join s " " space_nonempty) in Hall. congruence.
Qed.

(** C10: splitting on single spaces keeps empty fields: wherever two
    spaces stand in a row in a part of a line, [strings.Split] returns
    an empty field for that part.  The line with two spaces in a row in
    its left part is accepted with exactly the entry whose mount point
    is the empty string, and the line with two in a row in its right
    part with exactly the entry whose mount source is the empty string;
    with the extra space taken out the same lines have a field too few
    and are refused, so the space is neither collapsed nor a reason to
    reject. *)
Theorem empty_field_between_spaces :
  (forall part, Contains part "  " = true ->
     In EmptyString (strings.Split part " ")) /\
  (Contains gapLeftLine "  " = true /\
   leftFields gapLeftLine = ["1"; "2"; "8:1"; "/"; ""; "rw"] /\
   parseMountInfoRaw gapLeftLine
   = inr {| MountID := 1; ParentID := 2; StDev := "8:1"; Root := "/";
            MountPoint := ""; MountOptions := "rw"; OptionalFields := [];
            FilesystemType := "ext4"; MountSource := "/dev/sda1";
            SuperOptions := "rw" |} /\
   parseMountInfoRaw "1 2 8:1 / rw - ext4 /dev/sda1 rw"
   = inl (errorString
            "invalid mountinfo entry: 1 2 8:1 / rw - ext4 /dev/sda1 rw")) /\
  (Contains gapRightLine "  " = true /\
   rightFields gapRightLine = ["ext4"; ""; "rw"] /\
   parseMountInfoRaw gapRightLine
   = inr {| MountID := 1; ParentID := 2; StDev := "8:1"; Root := "/";
            MountPoint := "/mnt"; MountOptions := "rw"; OptionalFields := [];
            FilesystemType := "ext4"; MountSource := "";
            SuperOptions := "rw" |} /\
   parseMountInfoRaw "1 2 8:1 / /mnt rw - ext4 rw"
   = inl (errorString
            "invalid mountinfo entry: 1 2 8:1 / /mnt rw - ext4 rw")).
Proof.
  split; [exact Split_gap_empty_piece|].
  split; repeat split; vm_compute; reflexivity.
Qed.
